(** * Ruth: a shallow embedding of the federated-learning core

    Server side: [RobustAggregator] (src/ruth/server/aggregator.py),
    [Gatekeeper] (src/ruth/server/verifier.py), [AsyncAggregator]
    (src/ruth/server/async_aggregator.py).  Client side: the seed cursor
    (src/ruth/core/prng.py), [ClientRuntime.step]
    (src/ruth/client/runtime.py), [SecurityManager.sign_update]
    (src/ruth/client/security.py) and [generate_binding_hash]
    (src/ruth/client/attestation.py).

    Python's [float] is Rocq's primitive binary64 float; the entries of
    the aggregator's float32 tensors are IEEE binary32 values computed
    with the Standard Library's [SpecFloat] operations, and the order in
    which torch sums and sorts a column is left to the library.  Python
    strings are lists of code points, bytes lists of [Z] in 0..255. *)

From stdpp Require Import base list gmap strings.
From Stdlib Require Import ZArith QArith Qround Floats.
From Stdlib Require Import Sorting.Sorted Sorting.Permutation.

Open Scope Z_scope.
#[local] Set Warnings "-inexact-float,-register-all".

(* ================================================================== *)
(** ** Python values shared by several modules *)

(** A Python [str]: its code points. *)
Abbreviation pystr := (list Z).
(** A Python [bytes] object: its bytes, each in 0..255. *)
Abbreviation pybytes := (list Z).

Definition ch (c : Ascii.ascii) : Z := Z.of_N (Ascii.N_of_ascii c).

(** The code points of an ASCII literal. *)
Fixpoint lit (s : string) : pystr :=
  match s with
  | EmptyString => []
  | String c s' => ch c :: lit s'
  end.

(** Decimal digits of a natural number, most significant first
    ([str] of a non-negative [int]); [fuel] bounds the digit count. *)
Fixpoint dec_digits (fuel : nat) (n : Z) (acc : pystr) : pystr :=
  match fuel with
  | O => acc
  | S f =>
      if n <? 10 then (48 + n) :: acc
      else dec_digits f (n / 10) ((48 + n mod 10) :: acc)
  end.

Definition dec_nat (n : Z) : pystr := dec_digits (Z.to_nat (Z.log2 n) + 1) n [].

(** [str(i)] for a Python [int]. *)
Definition str_int (i : Z) : pystr :=
  if i <? 0 then 45 :: dec_nat (- i) else dec_nat i.

(** [s.encode('utf-8')]: [None] is the [UnicodeEncodeError] raised on a
    lone surrogate (U+D800..U+DFFF). *)
Definition utf8_char (c : Z) : option pybytes :=
  if c <? 128 then Some [c]
  else if c <? 2048 then
    Some [192 + c / 64; 128 + c mod 64]
  else if c <? 65536 then
    if (55296 <=? c) && (c <=? 57343) then None
    else Some [224 + c / 4096; 128 + (c / 64) mod 64; 128 + c mod 64]
  else Some [240 + c / 262144; 128 + (c / 4096) mod 64;
             128 + (c / 64) mod 64; 128 + c mod 64].

Fixpoint utf8_encode (s : pystr) : option pybytes :=
  match s with
  | [] => Some []
  | c :: s' =>
      match utf8_char c, utf8_encode s' with
      | Some b, Some bs => Some (b ++ bs)
      | _, _ => None
      end
  end.

(** [bytes.hex()] and [hexdigest()]: two lowercase hex digits per byte. *)
Definition hex_digit (n : Z) : Z := if n <? 10 then 48 + n else 87 + n.

Definition hex (bs : pybytes) : pystr :=
  flat_map (fun b => [hex_digit (b / 16); hex_digit (b mod 16)]) bs.

(* ================================================================== *)
(** ** SHA-256 (FIPS 180-4), the digest behind [hashlib.sha256] *)

Module Sha256.

Definition mask32 : Z := 4294967295.
Definition add32 (x y : Z) : Z := Z.land (x + y) mask32.
Definition rotr (x : Z) (n : Z) : Z :=
  Z.lor (Z.shiftr x n) (Z.land (Z.shiftl x (32 - n)) mask32).

Definition ch (x y z : Z) : Z := Z.lxor (Z.land x y) (Z.land (Z.lxor x mask32) z).
Definition maj (x y z : Z) : Z := Z.lxor (Z.land x y) (Z.lxor (Z.land x z) (Z.land y z)).
Definition bsig0 (x : Z) : Z := Z.lxor (rotr x 2) (Z.lxor (rotr x 13) (rotr x 22)).
Definition bsig1 (x : Z) : Z := Z.lxor (rotr x 6) (Z.lxor (rotr x 11) (rotr x 25)).
Definition ssig0 (x : Z) : Z := Z.lxor (rotr x 7) (Z.lxor (rotr x 18) (Z.shiftr x 3)).
Definition ssig1 (x : Z) : Z := Z.lxor (rotr x 17) (Z.lxor (rotr x 19) (Z.shiftr x 10)).

(** The constants of FIPS 180-4 4.2.2 and 5.3.3: the first 32 bits of the
    fractional parts of the cube roots (round constants) and square roots
    (initial hash value) of the first primes. *)
Definition is_prime (p : nat) : bool :=
  forallb (fun d => negb (Nat.eqb (Nat.modulo p d) 0)) (seq 2 (p - 2)).

Definition primes : list Z := map Z.of_nat (filter is_prime (seq 2 310)).

(** Floor of the cube root of [n] by bisection, for [0 <= n < 2^120]. *)
Fixpoint icbrt_go (fuel : nat) (lo hi n : Z) : Z :=
  match fuel with
  | O => lo
  | S f =>
      if hi - lo <=? 1 then lo
      else let m := (lo + hi) / 2 in
           if m * m * m <=? n then icbrt_go f m hi n else icbrt_go f lo m n
  end.
Definition icbrt (n : Z) : Z := icbrt_go 64 0 (2 ^ 40) n.

Definition K : list Z :=
  Eval vm_compute in map (fun p => Z.land (icbrt (p * 2 ^ 96)) mask32) (firstn 64 primes).

(** The eight working variables / chaining values. *)
Record state := { ha : Z; hb : Z; hc : Z; hd : Z; he : Z; hf : Z; hg : Z; hh : Z }.

Definition iv : list Z :=
  Eval vm_compute in map (fun p => Z.land (Z.sqrt (p * 2 ^ 64)) mask32) (firstn 8 primes).

Definition H0 : state :=
  match iv with
  | [a; b; c; d; e; f; g; h] =>
      {| ha := a; hb := b; hc := c; hd := d; he := e; hf := f; hg := g; hh := h |}
  | _ => {| ha := 0; hb := 0; hc := 0; hd := 0; he := 0; hf := 0; hg := 0; hh := 0 |}
  end.

(** Big-endian 32-bit words of a 64-byte block. *)
Fixpoint be_words (fuel : nat) (bs : list Z) : list Z :=
  match fuel with
  | O => []
  | S f =>
      match bs with
      | b0 :: b1 :: b2 :: b3 :: rest =>
          (b0 * 16777216 + b1 * 65536 + b2 * 256 + b3) :: be_words f rest
      | _ => []
      end
  end.

(** Message schedule words 16..63 from a sliding window of the last 16. *)
Fixpoint extend (fuel : nat) (win : list Z) : list Z :=
  match fuel with
  | O => []
  | S f =>
      let w := add32 (add32 (ssig1 (nth 14 win 0)) (nth 9 win 0))
                     (add32 (ssig0 (nth 1 win 0)) (nth 0 win 0)) in
      w :: extend f (tl win ++ [w])
  end.

Definition round (s : state) (kw : Z * Z) : state :=
  let t1 := add32 (add32 (add32 (hh s) (bsig1 (he s))) (add32 (ch (he s) (hf s) (hg s)) (fst kw))) (snd kw) in
  let t2 := add32 (bsig0 (ha s)) (maj (ha s) (hb s) (hc s)) in
  {| ha := add32 t1 t2; hb := ha s; hc := hb s; hd := hc s;
     he := add32 (hd s) t1; hf := he s; hg := hf s; hh := hg s |}.

Definition compress (s : state) (block : list Z) : state :=
  let w16 := be_words 16 block in
  let w := w16 ++ extend 48 w16 in
  let s' := fold_left round (combine K w) s in
  {| ha := add32 (ha s) (ha s'); hb := add32 (hb s) (hb s'); hc := add32 (hc s) (hc s');
     hd := add32 (hd s) (hd s'); he := add32 (he s) (he s'); hf := add32 (hf s) (hf s');
     hg := add32 (hg s) (hg s'); hh := add32 (hh s) (hh s') |}.

Fixpoint process (fuel : nat) (s : state) (bs : list Z) : state :=
  match fuel with
  | O => s
  | S f => match bs with [] => s | _ => process f (compress s (firstn 64 bs)) (skipn 64 bs) end
  end.

(** Padding: [0x80], zeros to 56 mod 64, the bit length as 8 big-endian bytes. *)
Definition pad (msg : list Z) : list Z :=
  let n := Z.of_nat (length msg) in
  let bits := 8 * n in
  msg ++ [128] ++ repeat 0 (Z.to_nat ((55 - n) mod 64)) ++
  map (fun i => (bits / 2 ^ (8 * (7 - Z.of_nat i))) mod 256) (seq 0 8).

Definition word_bytes (w : Z) : list Z := [w / 16777216 mod 256; w / 65536 mod 256; w / 256 mod 256; w mod 256].

(** [hashlib.sha256(msg).digest()]. *)
Definition digest (msg : list Z) : list Z :=
  let p := pad msg in
  let s := process (length p) H0 p in
  word_bytes (ha s) ++ word_bytes (hb s) ++ word_bytes (hc s) ++ word_bytes (hd s) ++
  word_bytes (he s) ++ word_bytes (hf s) ++ word_bytes (hg s) ++ word_bytes (hh s).

(** [hashlib.sha256(msg).hexdigest()]. *)
Definition hexdigest (msg : list Z) : list Z := hex (digest msg).

End Sha256.

(* ================================================================== *)
(** ** [repr] of a Python float (CPython's shortest round-trip form) *)

Module PyFloat.

(** CPython's [format_float_short] for [repr]: [digits] with the decimal
    point [decpt] places from their start. *)
Definition format_r (digits : pystr) (decpt : Z) : pystr :=
  let n := Z.of_nat (length digits) in
  if (decpt <=? -4)%Z || (16 <? decpt)%Z then
    let exp := (decpt - 1)%Z in
    let ed := dec_nat (Z.abs exp) in
    [hd 48 digits] ++ (if (1 <? n)%Z then 46 :: tl digits else []) ++ [101] ++
    (if (exp <? 0)%Z then [45] else [43]) ++
    (if (length ed =? 1)%nat then 48 :: ed else ed)
  else if (decpt <=? 0)%Z then lit "0." ++ repeat 48 (Z.to_nat (- decpt)) ++ digits
  else if (n <=? decpt)%Z then digits ++ repeat 48 (Z.to_nat (decpt - n)) ++ lit ".0"
  else firstn (Z.to_nat decpt) digits ++ [46] ++ skipn (Z.to_nat decpt) digits.

Open Scope Q_scope.

Definition pow10 (k : Z) : Q := Qpower (10 # 1) k.

(** The magnitude of a float, exactly. *)
Definition to_Q (f : float) : Q :=
  match Prim2SF f with
  | S754_finite _ m e => (Zpos m # 1) * Qpower (2 # 1) e
  | _ => 0
  end.

Definition Qltb (x y : Q) : bool := negb (Qle_bool y x).

(** Decimal exponent [E] with [10^E <= x < 10^(E+1)], from an estimate. *)
Fixpoint exp_down (fuel : nat) (x : Q) (E : Z) : Z :=
  match fuel with
  | O => E
  | S f => if Qle_bool (pow10 E) x then E else exp_down f x (E - 1)
  end.

Fixpoint exp_up (fuel : nat) (x : Q) (E : Z) : Z :=
  match fuel with
  | O => E
  | S f => if Qle_bool (pow10 (E + 1)) x then exp_up f x (E + 1) else E
  end.

Definition dec_exponent (m : positive) (e : Z) (x : Q) : Z :=
  let L := (Z.log2 (Zpos m) + e)%Z in
  exp_up 4 x (exp_down 4 x (Z.div (L * 30103) 100000)).

(** A decimal [c] reads back as the float when it lies in the rounding
    interval [(lo, hi)] of that float, the ends included when its
    significand is even (round-half-even). *)
Definition reads_back (lo hi c : Q) (even : bool) : bool :=
  (Qltb lo c && Qltb c hi) || (even && (Qeq_bool c lo || Qeq_bool c hi)).

(** The shortest digit count [p] whose [p]-digit decimals bracketing [x]
    contain one that reads back; the nearer such one (ties to even digits)
    as [(D, k)] standing for [D * 10^k]. *)
Fixpoint shortest (fuel : nat) (p : Z) (x lo hi : Q) (E : Z) (even : bool) : Z * Z :=
  let k := (E - p + 1)%Z in
  let Dlo := Qfloor (x / pow10 k) in
  let Dhi := (Dlo + 1)%Z in
  let clo := inject_Z Dlo * pow10 k in
  let chi := inject_Z Dhi * pow10 k in
  let okl := reads_back lo hi clo even in
  let okh := reads_back lo hi chi even in
  match fuel with
  | O => (Dlo, k)
  | S f =>
      if okl && okh then
        if Qltb (x - clo) (chi - x) then (Dlo, k)
        else if Qltb (chi - x) (x - clo) then (Dhi, k)
        else if Z.even Dlo then (Dlo, k) else (Dhi, k)
      else if okl then (Dlo, k)
      else if okh then (Dhi, k)
      else shortest f (p + 1) x lo hi E even
  end.

Fixpoint strip_zeros (fuel : nat) (D k : Z) : Z * Z :=
  match fuel with
  | O => (D, k)
  | S f => if (0 <? D)%Z && (D mod 10 =? 0)%Z then strip_zeros f (D / 10) (k + 1) else (D, k)
  end.

(** [repr(x)] (= [str(x)]) of a Python float. *)
Definition float_repr (x : float) : pystr :=
  match Prim2SF x with
  | S754_zero s => if s then lit "-0.0" else lit "0.0"
  | S754_infinity s => if s then lit "-inf" else lit "inf"
  | S754_nan => lit "nan"
  | S754_finite s m e =>
      let ax := PrimFloat.abs x in
      let xq := to_Q ax in
      let pq := to_Q (PrimFloat.next_down ax) in
      let lo := (pq + xq) / (2 # 1) in
      let hi := match Prim2SF (PrimFloat.next_up ax) with
                | S754_infinity _ => xq + (xq - pq) / (2 # 1)
                | _ => (xq + to_Q (PrimFloat.next_up ax)) / (2 # 1)
                end in
      let E := dec_exponent m e xq in
      let '(D, k) := shortest 17 1 xq lo hi E (Z.even (Zpos m)) in
      let '(D', k') := strip_zeros 20 D k in
      let digits := dec_nat D' in
      ((if s then [45%Z] else []) ++ format_r digits (Z.of_nat (length digits) + k'))%list
  end.

End PyFloat.

(* ================================================================== *)
(** ** Python library pieces used by the Gatekeeper *)

Module PyLib.

(** [bytes.decode('utf-8')] (strict): [None] is the [UnicodeDecodeError];
    the well-formed sequences are those of Unicode Table 3-7. *)
Definition cont (b : Z) : bool := (128 <=? b) && (b <=? 191).

Fixpoint utf8_decode (bs : pybytes) : option pystr :=
  match bs with
  | [] => Some []
  | b0 :: r =>
      if b0 <? 128 then option_map (cons b0) (utf8_decode r)
      else if (194 <=? b0) && (b0 <=? 223) then
        match r with
        | b1 :: r1 =>
            if cont b1 then option_map (cons ((b0 - 192) * 64 + (b1 - 128))) (utf8_decode r1)
            else None
        | [] => None
        end
      else if (224 <=? b0) && (b0 <=? 239) then
        match r with
        | b1 :: b2 :: r2 =>
            let lo1 := if b0 =? 224 then 160 else 128 in
            let hi1 := if b0 =? 237 then 159 else 191 in
            if (lo1 <=? b1) && (b1 <=? hi1) && cont b2 then
              option_map (cons ((b0 - 224) * 4096 + (b1 - 128) * 64 + (b2 - 128)))
                (utf8_decode r2)
            else None
        | _ => None
        end
      else if (240 <=? b0) && (b0 <=? 244) then
        match r with
        | b1 :: b2 :: b3 :: r3 =>
            let lo1 := if b0 =? 240 then 144 else 128 in
            let hi1 := if b0 =? 244 then 143 else 191 in
            if (lo1 <=? b1) && (b1 <=? hi1) && cont b2 && cont b3 then
              option_map (cons ((b0 - 240) * 262144 + (b1 - 128) * 4096 +
                                (b2 - 128) * 64 + (b3 - 128)))
                (utf8_decode r3)
            else None
        | _ => None
        end
      else None
  end.

(** [table_a2b_base64] of CPython's binascii: the value of a base64
    alphabet character, [None] for the others. *)
Definition b64_index (c : Z) : option Z :=
  if (65 <=? c) && (c <=? 90) then Some (c - 65)
  else if (97 <=? c) && (c <=? 122) then Some (c - 71)
  else if (48 <=? c) && (c <=? 57) then Some (c + 4)
  else if c =? 43 then Some 62
  else if c =? 47 then Some 63
  else None.

(** The loop of [binascii.a2b_base64] with [strict_mode=False] (what
    [base64.b64decode(s)] calls): characters outside the alphabet are
    skipped; a pad sequence completing a quad ends the input; a quad left
    open at the end is [binascii.Error] ([None]).  Each emitted value is
    stored into an [unsigned char]. *)
Fixpoint a2b_loop (s : pystr) (quad_pos leftchar pads : Z) (acc : pybytes) : option pybytes :=
  match s with
  | [] => if quad_pos =? 0 then Some (rev acc) else None
  | c :: s' =>
      if c =? 61 then
        if (2 <=? quad_pos) && (4 <=? quad_pos + (pads + 1)) then Some (rev acc)
        else a2b_loop s' quad_pos leftchar (if 2 <=? quad_pos then pads + 1 else pads) acc
      else
        match b64_index c with
        | None => a2b_loop s' quad_pos leftchar pads acc
        | Some v =>
            if quad_pos =? 0 then a2b_loop s' 1 v 0 acc
            else if quad_pos =? 1 then
              a2b_loop s' 2 (Z.land v 15) 0
                (Z.land (Z.lor (Z.shiftl leftchar 2) (Z.shiftr v 4)) 255 :: acc)
            else if quad_pos =? 2 then
              a2b_loop s' 3 (Z.land v 3) 0
                (Z.land (Z.lor (Z.shiftl leftchar 4) (Z.shiftr v 2)) 255 :: acc)
            else
              a2b_loop s' 0 0 0
                (Z.land (Z.lor (Z.shiftl leftchar 6) v) 255 :: acc)
        end
  end.

Definition a2b_base64 (s : pystr) : option pybytes := a2b_loop s 0 0 0 [].

(** [base64.b64decode(s)] of a [str]: [s.encode('ascii')] first (a
    [ValueError] on a non-ASCII character), then [a2b_base64]. *)
Definition b64decode (s : pystr) : option pybytes :=
  if forallb (fun c => c <? 128) s then a2b_base64 s else None.

(** [base64.b64encode]: the canonical, padded encoding. *)
Definition b64_char (v : Z) : Z :=
  if v <? 26 then 65 + v else if v <? 52 then 71 + v
  else if v <? 62 then v - 4 else if v =? 62 then 43 else 47.

Fixpoint b64encode (bs : pybytes) : pystr :=
  match bs with
  | b0 :: b1 :: b2 :: r =>
      [b64_char (b0 / 4); b64_char ((b0 mod 4) * 16 + b1 / 16);
       b64_char ((b1 mod 16) * 4 + b2 / 64); b64_char (b2 mod 64)] ++ b64encode r
  | [b0; b1] =>
      [b64_char (b0 / 4); b64_char ((b0 mod 4) * 16 + b1 / 16); b64_char ((b1 mod 16) * 4); 61]
  | [b0] => [b64_char (b0 / 4); b64_char ((b0 mod 4) * 16); 61; 61]
  | [] => []
  end.

(** A value produced by [json.loads]. *)
Inductive jval :=
  | JNull
  | JBool (b : bool)
  | JInt (z : Z)
  | JFloat (f : float)
  | JStr (s : pystr)
  | JArr (l : list jval)
  | JObj (kvs : list (pystr * jval)).

(** [dict.get(k, default)] on a decoded JSON object (a repeated key keeps
    its last value, as [json.loads] does). *)
Definition jget (kvs : list (pystr * jval)) (k : pystr) (default : jval) : jval :=
  match find (fun kv => bool_decide (fst kv = k)) (rev kvs) with
  | Some kv => snd kv
  | None => default
  end.

(** Python truth value ([bool(v)]). *)
Definition truthy (v : jval) : bool :=
  match v with
  | JNull => false
  | JBool b => b
  | JInt z => negb (z =? 0)
  | JFloat f => negb (PrimFloat.eqb f 0%float)
  | JStr s => negb (bool_decide (s = []))
  | JArr l => negb (bool_decide (l = []))
  | JObj kvs => negb (bool_decide (kvs = []))
  end.

(** A code point [utf8_encode] maps to itself (and never rejects). *)
Definition below128 (c : Z) : Prop := c < 128.

(** A byte value. *)
Definition byte (b : Z) : Prop := 0 <= b < 256.

(** A base64 alphabet character (not the pad [=]). *)
Definition b64_alpha (c : Z) : Prop := c <> 61 /\ b64_index c <> None.

(** The bookkeeping of [a2b_loop]: [4 * bytes out - 3 * characters in]
    changes by [phi q' - phi q] when the quad position goes from [q] to [q']. *)
Definition phi (q : Z) : Z := if q =? 1 then -3 else if q =? 2 then -2 else if q =? 3 then -1 else 0.

(** The integers [0 .. n-1], for checks over every byte or sextet value. *)
Definition zrange (n : nat) : list Z := map Z.of_nat (seq 0 n).

End PyLib.

(* ================================================================== *)
(** ** Gatekeeper (src/ruth/server/verifier.py) and the signer
    (src/ruth/client/security.py) *)

Module Gatekeeper.

Import PyLib.

Record ClientUpdate := {
  device_id : pystr;
  round_id : Z;
  seed_id : Z;
  scalar : float;
  loss : float;
  signature : pybytes;
  attestation_token : pybytes
}.

(** [f"{seed_id}:{scalar}:{round_id}"]. *)
Definition payload_str (seed_id : Z) (scalar : float) (round_id : Z) : pystr :=
  str_int seed_id ++ [58] ++ PyFloat.float_repr scalar ++ [58] ++ str_int round_id.

(** How the [urlopen] call of [_verify_attestation] ends: one of the
    exceptions it may raise ([HTTPError], [URLError], a socket timeout,
    any other [Exception]), or a response with its status and its body
    as [json.loads] reads it ([None]: the body is not JSON). *)
Inductive oracle_error := HTTPError (code : Z) | URLError | TimeoutError | OtherError.

Inductive outcome :=
  | ORaise (e : oracle_error)
  | OResponse (status : Z) (body : option jval).

(** What [verify_update] does: return [True], return [False], or let an
    exception escape. *)
Inductive verdict := Accepted | Rejected | Raised.

(** The nonce check of [_verify_attestation]: [true] when execution goes
    on to the integrity check.  A non-[str] nonce (including a missing
    one, [None]) differs from the [str] expected, and [b64decode] of it
    raises [TypeError], caught by the bare [except]. *)
Definition nonce_ok (returned : jval) (expected_nonce : pystr) : bool :=
  match returned with
  | JStr s =>
      if bool_decide (s = expected_nonce) then true
      else match b64decode s with
           | Some decoded => bool_decide (hex decoded = expected_nonce)
           | None => false
           end
  | _ => false
  end.

Section Verify.

(** [Ed25519PublicKey.verify]: public key, signature, message. *)
Variable ed_verify : pybytes -> pybytes -> pybytes -> bool.
(** The attestation service, as seen from the decoded token it is sent. *)
Variable oracle : pystr -> outcome.

(** [Gatekeeper._verify_attestation].  The token is decoded outside the
    [try]: a [UnicodeDecodeError] escapes. *)
Definition verify_attestation (token_bytes : pybytes) (expected_nonce : pystr) : verdict :=
  match utf8_decode token_bytes with
  | None => Raised
  | Some token =>
      match oracle token with
      | ORaise _ => Rejected
      | OResponse status body =>
          if negb (status =? 200) then Rejected
          else match body with
               | Some (JObj result) =>
                   if negb (truthy (jget result (lit "isValidSignature") (JBool false))) then Rejected
                   else if negb (nonce_ok (jget result (lit "nonce") JNull) expected_nonce) then Rejected
                   else if negb (truthy (jget result (lit "basicIntegrity") (JBool false))) then Rejected
                   else Accepted
               | _ => Rejected (* invalid JSON, or [.get] on a non-dict: caught *)
               end
      end
  end.

(** Step 1 of [verify_update]: [Some payload] when the signature check
    passes.  [from_public_bytes] raises [ValueError] unless the key has
    32 bytes; the encode error would be a [ValueError] too. *)
Definition signature_check (u : ClientUpdate) (public_key_bytes : pybytes) : option pybytes :=
  if negb (length public_key_bytes =? 32)%nat then None
  else match utf8_encode (payload_str (seed_id u) (scalar u) (round_id u)) with
       | None => None
       | Some payload => if ed_verify public_key_bytes (signature u) payload then Some payload else None
       end.

(** [Gatekeeper.verify_update]. *)
Definition verify_update (u : ClientUpdate) (public_key_bytes : pybytes) : verdict :=
  match signature_check u public_key_bytes with
  | None => Rejected
  | Some payload => verify_attestation (attestation_token u) (Sha256.hexdigest payload)
  end.

End Verify.

(** [SecurityManager.sign_update] with the signing primitive [ed_sign]
    (private key, message); [None] would be the [UnicodeEncodeError]. *)
Definition sign_update (ed_sign : pybytes -> pybytes -> pybytes) (private_key : pybytes)
    (seed_id : Z) (scalar : float) (round_id : Z) : option pybytes :=
  match utf8_encode (payload_str seed_id scalar round_id) with
  | Some payload => Some (ed_sign private_key payload)
  | None => None
  end.

(** The amended reading of the nonce rule: the returned nonce is a [str]
    that is the hex digest, or that [base64.b64decode] (lenient) turns
    into the digest bytes. *)
Definition nonce_matches (v : jval) (digest : pybytes) : Prop :=
  match v with
  | JStr s => s = hex digest \/ b64decode s = Some digest
  | _ => False
  end.

End Gatekeeper.

(* ================================================================== *)
(** ** RobustAggregator (src/ruth/server/aggregator.py) *)

Module Aggregator.

(** An entry of a float32 tensor: an IEEE 754 binary32 value (24-bit
    significand, largest exponent 128) as a [spec_float].  Float32
    arithmetic rounds to nearest, ties to even, as torch's CPU kernels do. *)
Abbreviation f32 := spec_float.

Definition fadd (x y : f32) : f32 := SFadd 24 128 x y.
Definition fmul (x y : f32) : f32 := SFmul 24 128 x y.
Definition fdiv (x y : f32) : f32 := SFdiv 24 128 x y.

(** [0.0], the entry of [torch.zeros]. *)
Definition f32_zero : f32 := S754_zero false.

(** An integer converted to float32. *)
Definition f32_of_Z (z : Z) : f32 := binary_normalize 24 128 z 0 false.

(** A Python [float] (binary64) converted to float32. *)
Definition f32_of_float (x : float) : f32 :=
  match Prim2SF x with
  | S754_finite s m e => binary_normalize 24 128 (cond_Zopp s (Zpos m)) e s
  | y => y
  end.

(** A Python [int] converted to [float], as [int * float] converts it
    (correctly rounded; the row counts met here are far below [2 ** 53],
    where the conversion is exact). *)
Definition float_of_Z (z : Z) : float := SF2Prim (binary_normalize 53 1024 z 0 false).

(** A tensor of shape (n, d) as its list of rows. *)
Abbreviation row := (list f32).

(** [tensor.shape[1]] of a stacked (n, d) tensor. *)
Definition width (G : list row) : nat :=
  match G with [] => O | r :: _ => length r end.

(** [tensor.numel()]. *)
Definition numel (G : list row) : nat := fold_right (fun r acc => (length r + acc)%nat) O G.

(** Column [j] of the matrix, i.e. [G[:, j]]. *)
Definition column (j : nat) (G : list row) : list f32 := map (fun r => nth j r f32_zero) G.

Definition columns (G : list row) : list (list f32) := map (fun j => column j G) (seq 0 (width G)).

(** The (n, d) matrix whose columns are [cols]. *)
Definition of_columns (n : nat) (cols : list (list f32)) : list row :=
  map (fun i => map (fun c => nth i c f32_zero) cols) (seq 0 n).

(** Python slice [l[a : b]] with integer bounds. *)
Definition py_slice {A} (l : list A) (a b : Z) : list A :=
  let n := Z.of_nat (length l) in
  let norm i := if (i <? 0)%Z then Z.max 0 (i + n) else Z.min i n in
  let a' := norm a in
  let b' := norm b in
  firstn (Z.to_nat (b' - a')) (skipn (Z.to_nat a') l).

(** [int(x)] for a Python float: truncation toward zero; [None] is the
    [ValueError] (NaN) or [OverflowError] (infinity) it raises. *)
Definition py_int (x : float) : option Z :=
  match Prim2SF x with
  | S754_zero _ => Some 0%Z
  | S754_finite s m e =>
      Some (cond_Zopp s (if (0 <=? e)%Z then Z.shiftl (Zpos m) e else Z.shiftr (Zpos m) (- e)))
  | _ => None
  end.

(** [k = int(num_clients * self.trim_ratio)], the product being the
    binary64 product of Python floats. *)
Definition trim_count (trim_ratio : float) (n : nat) : option Z :=
  py_int (PrimFloat.mul (float_of_Z (Z.of_nat n)) trim_ratio).

Section Torch.

(** [torch.sum] along dimension 0, for one column: the library adds the
    float32 entries of the column in an order of its own choosing, which
    is not fixed here. *)
Variable torch_sum : list f32 -> f32.

(** The values of [torch.sort] along dimension 0, for one column: ascending,
    NaN last; the library leaves the relative order of entries that
    compare equal ([-0.0] and [0.0]) open, so it is not fixed here. *)
Variable torch_sort : list f32 -> list f32.

(** [torch.mean] of one column of [n] rows: on the CPU the sum divided by
    [n] ([at::sum_out(...).div_(dim_prod)]), both in float32. *)
Definition mean (xs : list f32) : f32 := fdiv (torch_sum xs) (f32_of_Z (Z.of_nat (length xs))).

(** [torch.mean(H, dim=0)] for a tensor of [w] columns (with no rows, the
    [w] entries are [0.0 / 0]). *)
Definition mean_dim0 (w : nat) (H : list row) : row := map (fun j => mean (column j H)) (seq 0 w).

(** [torch.sort(G, dim=0)[0]]: every column sorted independently. *)
Definition sort_dim0 (G : list row) : list row := of_columns (length G) (map torch_sort (columns G)).

(** [RobustAggregator.aggregate]; [d] is [self.shape = (d,)]; [None] is the
    exception of [int()] on a NaN or infinite product. *)
Definition aggregate (trim_ratio : float) (d : nat) (gradients : list row) : option row :=
  if decide (numel gradients = O) then Some (repeat f32_zero d)
  else
    let num_clients := length gradients in
    match trim_count trim_ratio num_clients with
    | None => None
    | Some k =>
        if (k =? 0)%Z then Some (mean_dim0 (width gradients) gradients)
        else
          let sorted_grads := sort_dim0 gradients in
          let trimmed_grads := py_slice sorted_grads k (Z.of_nat num_clients - k) in
          Some (mean_dim0 (width gradients) trimmed_grads)
    end.

End Torch.

(** Reference library functions, used to run examples: torch's ascending
    order puts NaN after every other value. *)
Definition torch_lt (x y : f32) : bool :=
  match x, y with
  | S754_nan, _ => false
  | _, S754_nan => true
  | _, _ => SFltb x y
  end.

(** Stable insertion of an element that comes before [l] in the input. *)
Fixpoint insert_sorted (x : f32) (l : list f32) : list f32 :=
  match l with
  | [] => [x]
  | y :: l' => if torch_lt y x then y :: insert_sorted x l' else x :: l
  end.

Fixpoint insertion_sort (l : list f32) : list f32 :=
  match l with
  | [] => []
  | x :: l' => insert_sorted x (insertion_sort l')
  end.

(** Left-to-right float32 summation from [0.0]. *)
Definition sum_seq (xs : list f32) : f32 := fold_left fadd xs f32_zero.

End Aggregator.

(** The spec's reading of the aggregation, in exact arithmetic. *)
Module AggregatorSpec.
Import Aggregator.
Open Scope Q_scope.

(** The exact value of a finite float ([0] for the others). *)
Definition Q_of_float (x : float) : Q :=
  match Prim2SF x with
  | S754_finite s m e => (cond_Zopp s (Zpos m) # 1) * Qpower (2 # 1) e
  | _ => 0
  end.

Definition Q_of_f32 (x : f32) : Q :=
  match x with
  | S754_finite s m e => (cond_Zopp s (Zpos m) # 1) * Qpower (2 # 1) e
  | _ => 0
  end.

(** [k = floor(n * trim_ratio)]. *)
Definition spec_k (trim_ratio : float) (n : nat) : Z :=
  Qfloor (inject_Z (Z.of_nat n) * Q_of_float trim_ratio)%Q.

(** The arithmetic mean of a column. *)
Definition arith_mean (xs : list f32) : Q :=
  fold_right Qplus 0 (map Q_of_f32 xs) / inject_Z (Z.of_nat (length xs)).

End AggregatorSpec.

(* ================================================================== *)
(** ** RobustAggregator.reconstruct (src/ruth/server/aggregator.py) *)

Module Reconstruct.
Import Aggregator.

(** The values a payload dict holds. *)
Inductive pval := PInt (z : Z) | PFloat (x : float).

(** [scalar] as the float32 operand of [scalar * v]: torch wraps the Python
    number as a 0-dim tensor and casts it to the float32 of [v]; [None] is
    the error torch raises for an [int] beyond the 64-bit integer range. *)
Definition scalar_f32 (v : pval) : option f32 :=
  match v with
  | PInt z => if (- 2 ^ 63 <=? z) && (z <? 2 ^ 64) then Some (f32_of_Z z) else None
  | PFloat x => Some (f32_of_float x)
  end.

(** [scalar * v]: one float32 product per entry. *)
Definition scale (c : f32) (v : row) : row := map (fmul c) v.

(** One iteration of the loop: [payload['seed_id']] and [payload['scalar']]
    ([None]: the [KeyError] of a missing key, or numpy's [TypeError] on a
    seed that is not an int), the regenerated noise ([None]: numpy rejects
    the seed) and [g = scalar * v]. *)
Definition reconstruct_one (noise : Z -> list nat -> option row) (shape : list nat)
    (payload : gmap string pval) : option row :=
  match payload !! "seed_id"%string, payload !! "scalar"%string with
  | Some (PInt seed_id), Some scalar =>
      match noise seed_id shape, scalar_f32 scalar with
      | Some v, Some c => Some (scale c v)
      | _, _ => None
      end
  | _, _ => None
  end.

(** The [for payload in payloads] loop building [gradients]. *)
Fixpoint reconstruct_loop (noise : Z -> list nat -> option row) (shape : list nat)
    (payloads : list (gmap string pval)) : option (list row) :=
  match payloads with
  | [] => Some []
  | p :: ps =>
      match reconstruct_one noise shape p, reconstruct_loop noise shape ps with
      | Some g, Some gs => Some (g :: gs)
      | _, _ => None
      end
  end.

(** [torch.stack]: the rows must have one length. *)
Definition stack (gs : list row) : option (list row) :=
  match gs with
  | [] => Some []
  | g :: _ => if forallb (fun r => Nat.eqb (length r) (length g)) gs then Some gs else None
  end.

(** [RobustAggregator.reconstruct]: the stacked rows, [[]] being
    [torch.empty(0, *shape)]; [noise] is [prng.generate_noise_vector], a
    float32 vector per seed. *)
Definition reconstruct (noise : Z -> list nat -> option row) (shape : list nat)
    (payloads : list (gmap string pval)) : option (list row) :=
  match reconstruct_loop noise shape payloads with
  | None => None
  | Some [] => Some []
  | Some gradients => stack gradients
  end.

End Reconstruct.

(* ================================================================== *)
(** ** Seed cursor: Xoshiro256StarStar.next_seed (src/ruth/core/prng.py) *)

Module Prng.

(** Exceptions of the Python code. *)
Inductive PyError := ValueError (msg : string) | IndexError | ZeroDivisionError.

Inductive result (A : Type) := Ok (a : A) | Err (e : PyError).
Arguments Ok {A} _.
Arguments Err {A} _.

Record Cursor := { seeds : list Z; current_epoch : Z }.

(** [next_seed]: state in, result and state out. *)
Definition next_seed (c : Cursor) : result Z * Cursor :=
  match seeds c with
  | [] => (Err (ValueError "No seeds provided"), c)
  | _ =>
      let seed_idx := current_epoch c mod Z.of_nat (length (seeds c)) in
      let c' := {| seeds := seeds c; current_epoch := current_epoch c + 1 |} in
      match seeds c !! Z.to_nat seed_idx with
      | Some s => (Ok s, c')
      | None => (Err IndexError, c')
      end
  end.

(** [m] successive calls of [next_seed]. *)
Fixpoint next_seeds (m : nat) (c : Cursor) : list (result Z) * Cursor :=
  match m with
  | O => ([], c)
  | S m' =>
      let (r, c1) := next_seed c in
      let (rs, c2) := next_seeds m' c1 in
      (r :: rs, c2)
  end.

End Prng.

(* ================================================================== *)
(** ** ClientRuntime.step (src/ruth/client/runtime.py) over IEEE doubles *)

Module Runtime.
Import Prng.
Open Scope float_scope.

Record RuntimeState := {
  step_count : Z;
  baseline : float;
  beta : float;
  max_norm : float
}.

(** [ClientRuntime.__init__]: [step_count = 0], [baseline = 0.0], [beta = 0.9]. *)
Definition init_runtime (max_norm : float) : RuntimeState :=
  {| step_count := 0; baseline := 0; beta := 0.9; max_norm := max_norm |}.

(** The dictionary returned by [step]. *)
Record StepResult := {
  seed_id : Z;
  scalar : float;
  loss : float;
  raw_rho : float;
  epsilon : float
}.

(** The opaque model on the current batch: [forward_infer(x, y).item()] and
    [forward_perturb(x, y, v, alpha).item()] where [v] is the noise vector of
    the seed. *)
Record Model := {
  forward_infer : float;
  forward_perturb : Z -> float -> float
}.

(** [epsilon_schedule]: a float or a callable of the step count. *)
Inductive Schedule := Const (e : float) | Callable (f : Z -> float).

Definition get_epsilon (sch : Schedule) (st : RuntimeState) : float :=
  match sch with Const e => e | Callable f => f (step_count st) end.

(** Step 6, clipping: [if abs(rho_adj) > max_norm: rho_adj = max_norm * sign]. *)
Definition clip (max_norm rho_adj : float) : float :=
  if PrimFloat.ltb max_norm (PrimFloat.abs rho_adj)
  then max_norm * (if PrimFloat.ltb 0 rho_adj then 1 else -1)
  else rho_adj.

(** [ClientRuntime.step]: the cursor is [self.prng]'s state. *)
Definition step (m : Model) (sch : Schedule) (cur : Cursor) (st : RuntimeState)
    : result StepResult * Cursor * RuntimeState :=
  match next_seed cur with
  | (Err e, cur') => (Err e, cur', st)
  | (Ok sid, cur') =>
      let loss0 := forward_infer m in
      let eps := get_epsilon sch st in
      let lossP := forward_perturb m sid eps in
      let lossM := forward_perturb m sid (- eps) in
      (* Python's float division raises on a zero divisor (0.0 or -0.0);
         the cursor has advanced, [self] is not written yet. *)
      if PrimFloat.eqb (2 * eps) 0 then (Err ZeroDivisionError, cur', st) else
      let rho := (lossP - lossM) / (2 * eps) in
      let baseline' := beta st * baseline st + (1 - beta st) * rho in
      let rho_adj := clip (max_norm st) (rho - baseline') in
      let st' := {| step_count := (step_count st + 1)%Z; baseline := baseline';
                    beta := beta st; max_norm := max_norm st |} in
      (Ok {| seed_id := sid; scalar := rho_adj; loss := loss0; raw_rho := rho; epsilon := eps |},
       cur', st')
  end.

End Runtime.

(* ================================================================== *)
(** ** AsyncAggregator (src/ruth/server/async_aggregator.py) *)

Module Collector.
Import Gatekeeper.

(** The Redis keys the collector uses: [ruth:round:{r}:updates] (a list)
    and [ruth:round:{r}:count] (a counter), one pair per round id [r]
    ([str] of an [int] is injective, and the scan recovers [r] with
    [int(key.split(':')[2])], so the keys are indexed by [r]).  The store
    is written only by this class. *)
Record Store := {
  updates : gmap Z (list pybytes);
  counts : gmap Z Z
}.

Definition empty_store : Store := {| updates := ∅; counts := ∅ |}.

(** [LRANGE key 0 -1] (a missing key reads as an empty list) and
    [int(GET key or 0)]. *)
Definition lrange (st : Store) (r : Z) : list pybytes :=
  match updates st !! r with Some l => l | None => [] end.

Definition get_count (st : Store) (r : Z) : Z :=
  match counts st !! r with Some c => c | None => 0 end.

(** [AsyncAggregator.submit_update]: no check of the signature or the
    attestation; [LPUSH] of [update.SerializeToString()] and [INCR] in one
    MULTI/EXEC pipeline.  [pipeline_ok] is whether [execute()] succeeds
    (a [RedisError] leaves the store as it was and returns [False]);
    [serialize] is the protobuf codec. *)
Definition submit_update (serialize : ClientUpdate -> pybytes) (pipeline_ok : bool)
    (update : ClientUpdate) (st : Store) : bool * Store :=
  let r := round_id update in
  let serialized_data := serialize update in
  if pipeline_ok then
    (true, {| updates := <[r := serialized_data :: lrange st r]> (updates st);
              counts := <[r := get_count st r + 1]> (counts st) |})
  else (false, st).

(** A call of [_trigger_aggregation], with the count that triggered it and
    the serialized updates it loaded. *)
Record Trigger := { t_round : Z; t_count : Z; t_updates : list pybytes }.

(** [_trigger_aggregation]: load the list, (the aggregation itself is a
    commented-out mock), then delete both keys in one pipeline. *)
Definition trigger_aggregation (r : Z) (st : Store) : list pybytes * Store :=
  (lrange st r, {| updates := delete r (updates st); counts := delete r (counts st) |}).

(** The body of the [for key in keys] loop of [_worker_loop]. *)
Definition check_round (k_threshold : Z) (acc : Store * list Trigger) (r : Z) : Store * list Trigger :=
  let '(st, log) := acc in
  let count := get_count st r in
  if k_threshold <=? count then
    let '(loaded, st') := trigger_aggregation r st in
    (st', log ++ [{| t_round := r; t_count := count; t_updates := loaded |}])
  else (st, log).

(** One iteration of [while self.running]: the [SCAN] over the count keys
    (in the store's order), then the 1 s sleep.  A poll is taken as atomic
    with respect to submissions. *)
Definition poll (k_threshold : Z) (st : Store) : Store * list Trigger :=
  fold_left (check_round k_threshold) (map fst (map_to_list (counts st))) (st, []).

(** A schedule: successful submissions and worker polls, in order. *)
Inductive event := Submit (u : ClientUpdate) | Poll.

Fixpoint run (k_threshold : Z) (serialize : ClientUpdate -> pybytes) (evs : list event)
    (st : Store) : Store * list Trigger :=
  match evs with
  | [] => (st, [])
  | Submit u :: evs' => run k_threshold serialize evs' (snd (submit_update serialize true u st))
  | Poll :: evs' =>
      let '(st', log) := poll k_threshold st in
      let '(st'', log') := run k_threshold serialize evs' st' in
      (st'', log ++ log')
  end.

(** Modelled from the spec: the generated [ruth_pb2] codec is not among
    the repository's sources.  A stand-in for [SerializeToString] after the
    spec's [ClientUpdate] record: every field, in the record's order, as a
    field number, a length and the field's bytes. *)
Definition field_bytes (n : Z) (data : list Z) : list Z :=
  [n; Z.of_nat (length data)] ++ data.

Definition wire_format (u : ClientUpdate) : pybytes :=
  field_bytes 1 (device_id u) ++ field_bytes 2 (str_int (round_id u)) ++
  field_bytes 3 (str_int (seed_id u)) ++ field_bytes 4 (PyFloat.float_repr (scalar u)) ++
  field_bytes 5 (PyFloat.float_repr (loss u)) ++ field_bytes 6 (signature u) ++
  field_bytes 7 (attestation_token u).

(** [u] with another signature and attestation token, every other field kept. *)
Definition with_credentials (u : ClientUpdate) (sig token : pybytes) : ClientUpdate :=
  {| device_id := device_id u; round_id := round_id u; seed_id := seed_id u; scalar := scalar u;
     loss := loss u; signature := sig; attestation_token := token |}.

(** An update for round 7, signed with [sig]. *)
Definition round7_update (sig : pybytes) : ClientUpdate :=
  {| device_id := lit "device-0"; round_id := 7; seed_id := 42; scalar := 0.1%float;
     loss := 0.5%float; signature := sig; attestation_token := lit "token" |}.

End Collector.

(* ================================================================== *)
(** ** generate_binding_hash (src/ruth/client/attestation.py) *)

Module Attestation.














End Attestation.

(* ================================================================== *)
(** ** Concrete inputs for the Gatekeeper *)

Module GatekeeperExamples.
Import PyLib Gatekeeper.

(** A stand-in signature scheme (every key has the same 32-byte public
    key; a signature is the public key followed by the message). *)
Definition toy_public (private_key : pybytes) : pybytes := repeat 0 32.
Definition toy_sign (private_key msg : pybytes) : pybytes := toy_public private_key ++ msg.
Definition toy_verify (public_key sig msg : pybytes) : bool := bool_decide (sig = public_key ++ msg).

Definition ex_pk : pybytes := toy_public [].

(** The update of the spec's scenario: [(42, 0.1, 7)], signed. *)
Definition ex_update (x : float) : ClientUpdate :=
  {| device_id := lit "device-0"; round_id := 7; seed_id := 42; scalar := x; loss := 0.5%float;
     signature := toy_sign [] (lit "42:" ++ PyFloat.float_repr x ++ lit ":7");
     attestation_token := lit "mock_integrity_token_from_device" |}.

Definition ex_payload : pybytes := lit "42:0.1:7".

(** A SafetyNet-style answer carrying [nonce]. *)
Definition ex_response (nonce : jval) : outcome :=
  OResponse 200 (Some (JObj [(lit "isValidSignature", JBool true); (lit "nonce", nonce);
                             (lit "basicIntegrity", JBool true)])).

(** The canonical base64 of the digest, and the same followed by a newline. *)
Definition canonical_nonce : pystr := b64encode (Sha256.digest ex_payload).
Definition lenient_nonce : pystr := canonical_nonce ++ [10].

End GatekeeperExamples.

(* ================================================================== *)
(** ** SecurityManager.__init__ (src/ruth/client/security.py) *)

Module Security.
Import PyLib.

(** The private key [SecurityManager.__init__] ends up with, as its raw
    bytes.  [env] is [os.environ.get("RUTH_CLIENT_PRIVATE_KEY")] ([None]
    when unset); a non-empty value goes through [base64.b64decode] and
    [Ed25519PrivateKey.from_private_bytes], which raises [ValueError]
    unless it gets 32 bytes.  An empty value, or an exception on the way
    (caught by [except Exception]), leaves [generated], the key
    [Ed25519PrivateKey.generate()] returns. *)
Definition load_private_key (env : option pystr) (generated : pybytes) : pybytes :=
  match env with
  | Some private_key_bytes_b64 =>
      if bool_decide (private_key_bytes_b64 = []) then generated
      else match b64decode private_key_bytes_b64 with
           | Some private_key_bytes =>
               if (length private_key_bytes =? 32)%nat then private_key_bytes else generated
           | None => generated
           end
  | None => generated
  end.

(** [SecurityManager.get_attestation_token]: a constant mock token. *)
Definition get_attestation_token (seed_id : Z) (scalar : float) (round_id : Z) : pybytes :=
  lit "mock_integrity_token_from_device".

End Security.

(* ================================================================== *)
(** ** Views of the collector's store *)

Module CollectorViews.
Import Collector.

(** Whether the scan of [_worker_loop] over the (round, count) pairs [l]
    triggers round [r]. *)
Definition fired (k_threshold : Z) (l : list (Z * Z)) (r : Z) : bool :=
  existsb (fun rc => (rc.1 =? r) && (k_threshold <=? rc.2)) l.

(** The [_trigger_aggregation] call for the pair [rc] on store [st]. *)
Definition trigger_of (st : Store) (rc : Z * Z) : Trigger :=
  {| t_round := rc.1; t_count := rc.2; t_updates := lrange st rc.1 |}.

(** The store invariant: every round's counter equals the length of its list. *)
Definition count_matches (st : Store) : Prop :=
  forall r, get_count st r = Z.of_nat (length (lrange st r)).

End CollectorViews.

(* ================================================================== *)
(** ** The collector with its Redis commands interleaved *)

(** [poll] runs a pass of the worker at once.  The coroutines of
    [submit_update] and [_worker_loop] yield at every [await], so here each
    Redis command is a step of its own and submissions may come between
    the worker's [GET], [LRANGE] and cleanup of a round. *)
Module CollectorSteps.
Import Gatekeeper Collector CollectorViews.

(** Where the single worker task is in the body of its key loop. *)
Inductive wstate :=
  | WIdle
    (** [GET] returned [count >= K] for round [r]: [_trigger_aggregation(r)] is next. *)
  | WGot (r : Z) (count : Z)
    (** [LRANGE] returned [loaded]: the cleanup pipeline is next. *)
  | WLoaded (r : Z) (count : Z) (loaded : list pybytes).

(** One Redis command. *)
Inductive action :=
    (** The MULTI/EXEC pipeline of a [submit_update] (failed or not). *)
  | ASubmit (pipeline_ok : bool) (u : ClientUpdate)
    (** The worker's [GET] of [count(r)], for a key the [SCAN] returned. *)
  | AGet (r : Z)
    (** [LRANGE] of the round's list in [_trigger_aggregation]. *)
  | ALrange
    (** The cleanup pipeline (a transaction): both keys deleted. *)
  | ACleanup
    (** An exception (a [RedisError], say) ends the worker's work on the
        current key; the handlers print it and move on. *)
  | AAbort.

(** One command; [None] when the worker is not at that command.  The log
    records the calls of [_trigger_aggregation] whose cleanup ran. *)
Definition step_action (k_threshold : Z) (serialize : ClientUpdate -> pybytes) (a : action)
    (s : Store * wstate * list Trigger) : option (Store * wstate * list Trigger) :=
  let '(st, w, log) := s in
  match a, w with
  | ASubmit ok u, _ => Some (snd (submit_update serialize ok u st), w, log)
  | AGet r, WIdle =>
      let count := get_count st r in
      if k_threshold <=? count then Some (st, WGot r count, log) else Some (st, WIdle, log)
  | ALrange, WGot r c => Some (st, WLoaded r c (lrange st r), log)
  | ACleanup, WLoaded r c l =>
      Some ({| updates := delete r (updates st); counts := delete r (counts st) |}, WIdle,
            log ++ [{| t_round := r; t_count := c; t_updates := l |}])
  | AAbort, _ => Some (st, WIdle, log)
  | _, _ => None
  end.

Fixpoint run_actions (k_threshold : Z) (serialize : ClientUpdate -> pybytes) (acts : list action)
    (s : Store * wstate * list Trigger) : option (Store * wstate * list Trigger) :=
  match acts with
  | [] => Some s
  | a :: acts' =>
      match step_action k_threshold serialize a s with
      | Some s' => run_actions k_threshold serialize acts' s'
      | None => None
      end
  end.

(** What holds between any two commands. *)
Definition step_inv (k_threshold : Z) (s : Store * wstate * list Trigger) : Prop :=
  let '(st, w, log) := s in
  count_matches st /\
  match w with
  | WIdle => True
  | WGot r c => k_threshold <= c <= get_count st r
  | WLoaded r c l => k_threshold <= c <= Z.of_nat (length l)
  end /\
  Forall (fun t => k_threshold <= t_count t <= Z.of_nat (length (t_updates t))) log.

End CollectorSteps.

(* ================================================================== *)
(** * Theorems *)

Module AggregatorFacts.
Import Aggregator.

Lemma insert_sorted_perm (x : f32) (l : list f32) : Permutation (insert_sorted x l) (x :: l).
Proof.
  induction l as [|y l IH]; simpl; [done|].
  destruct (torch_lt y x); [|done].
  etrans; [apply perm_skip, IH | apply perm_swap].
Qed.

Lemma insertion_sort_perm (l : list f32) : Permutation (insertion_sort l) l.
Proof.
  induction l as [|x l IH]; simpl; [done|].
  etrans; [apply insert_sorted_perm | apply perm_skip, IH].
Qed.

Lemma nth_map_seq {A} (f : nat -> A) (a : A) (w j : nat) :
  (j < w)%nat -> nth j (map f (seq 0 w)) a = f j.
Proof.
  intros Hj. transitivity (nth j (map f (seq 0 w)) (f O)).
  - apply nth_indep. rewrite length_map, length_seq. lia.
  - rewrite map_nth, seq_nth by done. done.
Qed.

Lemma map_nth_seq_self (l : list f32) (m : nat) :
  length l = m -> map (fun i => nth i l f32_zero) (seq 0 m) = l.
Proof.
  intros <-. induction l as [|x l IH]; simpl; [done|]. f_equal.
  rewrite <- seq_shift, map_map. exact IH.
Qed.

Lemma column_of_columns (j m : nat) (cols : list (list f32)) :
  (j < length cols)%nat ->
  column j (of_columns m cols) = map (fun i => nth i (nth j cols []) f32_zero) (seq 0 m).
Proof.
  intros Hj. unfold column, of_columns. rewrite map_map. apply map_ext. intros i.
  transitivity (nth j (map (fun c => nth i c f32_zero) cols) ((fun c => nth i c f32_zero) [])).
  - apply nth_indep. rewrite length_map. done.
  - apply (map_nth (fun c => nth i c f32_zero)).
Qed.

Lemma column_py_slice (j : nat) (H : list row) (a b : Z) :
  column j (py_slice H a b) = py_slice (column j H) a b.
Proof. unfold py_slice, column. rewrite length_map, skipn_map, firstn_map. done. Qed.

Lemma py_slice_mid {A} (l : list A) (k : Z) (m : nat) :
  length l = m -> (0 <= k)%Z -> (2 * k <= Z.of_nat m)%Z ->
  py_slice l k (Z.of_nat m - k) =
  firstn (Z.to_nat (Z.of_nat m - 2 * k)) (skipn (Z.to_nat k) l).
Proof.
  intros <- H0 H1. unfold py_slice.
  rewrite (proj2 (Z.ltb_ge k 0)) by lia.
  rewrite (proj2 (Z.ltb_ge (Z.of_nat (length l) - k) 0)) by lia.
  rewrite Z.min_l by lia. rewrite Z.min_l by lia.
  f_equal. f_equal. lia.
Qed.

Lemma width_uniform (H : list row) (w : nat) :
  Forall (fun r => length r = w) H -> H <> [] -> width H = w.
Proof. intros F Hne. destruct H as [|r H]; [done|]. by inversion F. Qed.

Lemma length_columns (G : list row) : length (columns G) = width G.
Proof. unfold columns. by rewrite length_map, length_seq. Qed.

Lemma nth_columns (j : nat) (G : list row) :
  (j < width G)%nat -> nth j (columns G) [] = column j G.
Proof. intros Hj. unfold columns. by rewrite nth_map_seq. Qed.

Lemma length_of_columns (m : nat) (cols : list (list f32)) : length (of_columns m cols) = m.
Proof. unfold of_columns. by rewrite length_map, length_seq. Qed.

Lemma numel_nonzero (G : list row) (d : nat) :
  (1 <= d)%nat -> Forall (fun r => length r = d) G -> G <> [] -> numel G <> O.
Proof. intros Hd F Hne. destruct G as [|r G]; [done|]. inversion F; subst. simpl. lia. Qed.

(** Column [j] of the column-sorted matrix is the sorted column [j]. *)
Lemma column_sort_dim0 (torch_sort : list f32 -> list f32) (j : nat) (G : list row) :
  (forall l, Permutation (torch_sort l) l) -> (j < width G)%nat ->
  column j (sort_dim0 torch_sort G) = torch_sort (column j G).
Proof.
  intros Hsort Hj. unfold sort_dim0.
  rewrite column_of_columns by (rewrite length_map, length_columns; done).
  assert (nth j (map torch_sort (columns G)) [] = torch_sort (column j G)) as ->.
  { rewrite <- (nth_columns j G Hj).
    rewrite (nth_indep _ [] (torch_sort [])) by (rewrite length_map, length_columns; done).
    exact (map_nth torch_sort (columns G) [] j). }
  apply map_nth_seq_self.
  rewrite (Permutation_length (Hsort _)). unfold column. by rewrite length_map.
Qed.

(** C1 (amended).  [RobustAggregator.aggregate] on a float32 gradient
    matrix [G] of shape n x d ([d >= 1]), for any library summation
    [torch_sum] and any library sort [torch_sort] that permutes each column:
    on the empty input it returns the zero vector of length [d]; otherwise
    [k = int(n * trim_ratio)] is computed with the binary64 product
    ([trim_count]), and a NaN or infinite product raises; when [k = 0] entry
    [j] is [torch.mean] of column [j], i.e. the float32 quotient of its
    library sum by [n]; when [k > 0] and [n - 2k >= 1], entry [j] is the
    float32 mean of the [n - 2k] entries left after sorting column [j] and
    dropping the first [k] and the last [k]. *)
Theorem aggregate_trimmed_mean (torch_sum : list f32 -> f32) (torch_sort : list f32 -> list f32)
    (t : float) (d : nat) (G : list row) :
  (forall l, Permutation (torch_sort l) l) ->
  (1 <= d)%nat -> Forall (fun r => length r = d) G ->
  (G = [] -> aggregate torch_sum torch_sort t d G = Some (repeat f32_zero d)) /\
  (G <> [] -> trim_count t (length G) = None -> aggregate torch_sum torch_sort t d G = None) /\
  (G <> [] -> trim_count t (length G) = Some 0%Z ->
     aggregate torch_sum torch_sort t d G =
       Some (map (fun j => mean torch_sum (column j G)) (seq 0 d))) /\
  (forall k, G <> [] -> trim_count t (length G) = Some k -> (0 < k)%Z ->
     (1 <= Z.of_nat (length G) - 2 * k)%Z ->
     exists g, aggregate torch_sum torch_sort t d G = Some g /\ length g = d /\
       forall j, (j < d)%nat ->
         nth j g f32_zero =
           mean torch_sum (firstn (Z.to_nat (Z.of_nat (length G) - 2 * k))
                                  (skipn (Z.to_nat k) (torch_sort (column j G))))).
Proof.
  intros Hsort Hd F.
  assert (G <> [] -> aggregate torch_sum torch_sort t d G =
     match trim_count t (length G) with
     | None => None
     | Some k =>
         if (k =? 0)%Z then Some (mean_dim0 torch_sum (width G) G)
         else Some (mean_dim0 torch_sum (width G)
                      (py_slice (sort_dim0 torch_sort G) k (Z.of_nat (length G) - k)))
     end) as Hagg.
  { intros Hne. unfold aggregate. by rewrite decide_False by (apply (numel_nonzero G d); done). }
  assert (G <> [] -> width G = d) as HwG by (by apply width_uniform).
  split; [intros ->; done|].
  split; [intros Hne Hk; rewrite Hagg, Hk by done; done|].
  split.
  - intros Hne Hk. rewrite Hagg, Hk by done. simpl. unfold mean_dim0. by rewrite HwG.
  - intros k Hne Hk Hpos Hn. rewrite Hagg, Hk by done.
    rewrite (proj2 (Z.eqb_neq k 0)) by lia.
    eexists. split; [reflexivity|]. rewrite HwG by done.
    split; [unfold mean_dim0; by rewrite length_map, length_seq|].
    intros j Hj. unfold mean_dim0. rewrite nth_map_seq by done. f_equal.
    rewrite column_py_slice, column_sort_dim0 by (done || (rewrite HwG; done)).
    apply py_slice_mid; [|lia|lia].
    rewrite (Permutation_length (Hsort _)). unfold column. by rewrite length_map.
Qed.

(** Witness of C1: five clients, [trim_ratio = 0.2] ([k = 1]), the
    reference sort and a left-to-right sum. *)
Lemma aggregate_trimmed_mean_witness :
  exists g,
    aggregate sum_seq insertion_sort 0.2 1
      [[f32_of_Z 9]; [f32_of_Z 1]; [f32_of_Z 5]; [f32_of_Z 2]; [f32_of_Z 100]] = Some g /\
    nth 0 g f32_zero = mean sum_seq [f32_of_Z 2; f32_of_Z 5; f32_of_Z 9].
Proof.
  destruct (aggregate_trimmed_mean sum_seq insertion_sort 0.2 1
              [[f32_of_Z 9]; [f32_of_Z 1]; [f32_of_Z 5]; [f32_of_Z 2]; [f32_of_Z 100]]
              insertion_sort_perm (le_n 1) ltac:(repeat constructor)) as (_ & _ & _ & H4).
  destruct (H4 1%Z ltac:(discriminate) ltac:(vm_compute; reflexivity) ltac:(lia) ltac:(simpl; lia))
    as (g & Hg & _ & Hj).
  exists g. split; [exact Hg|]. rewrite (Hj 0%nat ltac:(lia)). vm_compute. reflexivity.
Defined.

(** C1 (counterexample).  [n = 3], [trim_ratio = 0.3333333333333333] and
    the column [0, 0, 3]: [floor(3 * trim_ratio) = 0] in exact arithmetic,
    so the spec asks for the mean of the whole column, [1]; the binary64
    product [3 * trim_ratio] rounds to [1.0], so the code has [k = 1] and
    returns the mean of the middle entry, [0.0] (any sort of the column
    gives [0, 0, 3], any float32 sum of [[0.0]] is [0.0]).  Also, the float32
    mean is not the arithmetic mean: two entries [3e38] (k = 0) have the
    float32 sum [inf], so the mean is [inf], not [3e38]. *)
Lemma aggregate_trimmed_mean_counterexample :
  AggregatorSpec.spec_k 0.3333333333333333 3 = 0%Z /\
  trim_count 0.3333333333333333 3 = Some 1%Z /\
  aggregate sum_seq insertion_sort 0.3333333333333333 1
    [[f32_of_Z 0]; [f32_of_Z 0]; [f32_of_Z 3]] = Some [f32_zero] /\
  (AggregatorSpec.arith_mean [f32_of_Z 0; f32_of_Z 0; f32_of_Z 3] == 1)%Q /\
  (AggregatorSpec.Q_of_f32 f32_zero == 0)%Q /\
  trim_count 0.1 2 = Some 0%Z /\
  aggregate sum_seq insertion_sort 0.1 1 [[f32_of_float 3e38]; [f32_of_float 3e38]] =
    Some [S754_infinity false] /\
  f32_of_float 3e38 <> S754_infinity false.
Proof. vm_compute. repeat split; discriminate. Qed.

End AggregatorFacts.

Module ReconstructFacts.
Import Aggregator Reconstruct.

Lemma stack_uniform (w : nat) (gs : list row) :
  Forall (fun r => length r = w) gs -> stack gs = Some gs.
Proof.
  intros F. destruct gs as [|g gs']; [done|]. simpl.
  inversion F as [|? ? Hg F']; subst.
  rewrite Nat.eqb_refl. simpl.
  replace (forallb (fun r => Nat.eqb (length r) (length g)) gs') with true; [done|].
  symmetry. apply forallb_forall. intros r Hr. apply Nat.eqb_eq.
  rewrite (proj1 (List.Forall_forall _ _) F' r Hr). done.
Qed.

(** C2: when every payload holds an int [seed_id] whose noise vector the
    oracle produces (all of one length [w]) and a [scalar] torch converts,
    [RobustAggregator.reconstruct] succeeds and returns one row per
    payload, row [i] being [scalar_i * noise(seed_id_i, shape)]: the float32
    product, entry by entry, of the scalar (converted to float32) and the
    noise vector regenerated from [seed_id_i] alone. *)
Theorem reconstruct_rows (noise : Z -> list nat -> option row) (shape : list nat) (w : nat)
    (payloads : list (gmap string pval)) :
  (forall s v, noise s shape = Some v -> length v = w) ->
  Forall (fun p => exists s x v c, p !! "seed_id"%string = Some (PInt s) /\
            p !! "scalar"%string = Some x /\ noise s shape = Some v /\ scalar_f32 x = Some c) payloads ->
  exists G, reconstruct noise shape payloads = Some G /\ length G = length payloads /\
    forall (i : nat) p s x v c, payloads !! i = Some p ->
      p !! "seed_id"%string = Some (PInt s) -> p !! "scalar"%string = Some x ->
      noise s shape = Some v -> scalar_f32 x = Some c ->
      G !! i = Some (scale c v).
Proof.
  intros Hw F.
  assert (exists G, reconstruct_loop noise shape payloads = Some G /\ length G = length payloads /\
    Forall (fun r => length r = w) G /\
    forall (i : nat) p s x v c, payloads !! i = Some p ->
      p !! "seed_id"%string = Some (PInt s) -> p !! "scalar"%string = Some x ->
      noise s shape = Some v -> scalar_f32 x = Some c ->
      G !! i = Some (scale c v)) as (G & HG & Hlen & FG & Hrows).
  { induction payloads as [|p ps IH].
    - exists []. split; [done|]. split; [done|]. split; [constructor|]. intros i p s x v c Hi. done.
    - inversion F as [|? ? (s & x & v & c & Hs & Hx & Hv & Hc) F']; subst.
      destruct (IH F') as (G & HG & Hlen & FG & Hrows).
      exists (scale c v :: G). split.
      { simpl. unfold reconstruct_one. by rewrite Hs, Hx, Hv, Hc, HG. }
      split; [simpl; lia|]. split.
      { constructor; [|exact FG]. unfold scale. rewrite length_map. by apply (Hw s). }
      intros [|i] p' s' x' v' c' Hi Hs' Hx' Hv' Hc'; simpl in Hi.
      + injection Hi as <-. rewrite Hs in Hs'. injection Hs' as <-.
        rewrite Hx in Hx'. injection Hx' as <-. rewrite Hv in Hv'. injection Hv' as <-.
        rewrite Hc in Hc'. injection Hc' as <-. reflexivity.
      + simpl. by eapply Hrows. }
  exists G. split; [|split; [exact Hlen|exact Hrows]].
  unfold reconstruct. rewrite HG. destruct G as [|g G']; [reflexivity|].
  by apply (stack_uniform w).
Qed.

(** Witness of C2: one payload [{'seed_id': 3, 'scalar': 0.5}] and an
    oracle giving [[s, -s]]. *)
Lemma reconstruct_rows_witness :
  exists G, reconstruct (fun s _ => Some [f32_of_Z s; f32_of_Z (- s)]) [2%nat]
      [<["seed_id"%string := PInt 3]> ({["scalar"%string := PFloat 0.5]} : gmap string pval)] = Some G /\
    G !! 0%nat = Some (scale (f32_of_float 0.5) [f32_of_Z 3; f32_of_Z (-3)]).
Proof.
  destruct (reconstruct_rows (fun s _ => Some [f32_of_Z s; f32_of_Z (- s)]) [2%nat] 2
    [<["seed_id"%string := PInt 3]> ({["scalar"%string := PFloat 0.5]} : gmap string pval)])
    as (G & HG & _ & Hrows).
  - intros s v Hv. injection Hv as <-. reflexivity.
  - constructor; [|constructor].
    exists 3, (PFloat 0.5), [f32_of_Z 3; f32_of_Z (-3)], (f32_of_float 0.5). repeat split.
  - exists G. split; [exact HG|].
    apply (Hrows 0%nat (<["seed_id"%string := PInt 3]> ({["scalar"%string := PFloat 0.5]} : gmap string pval))
             3 (PFloat 0.5)); reflexivity.
Defined.

End ReconstructFacts.

Module PrngFacts.
Import Prng.

Lemma lookup_mod (l : list Z) (e : Z) :
  l <> [] ->
  l !! Z.to_nat (e mod Z.of_nat (length l)) = Some (nth (Z.to_nat (e mod Z.of_nat (length l))) l 0).
Proof.
  intros Hne.
  assert (0 < length l)%nat by (destruct l; [done|simpl; lia]).
  destruct (nth_lookup_or_length l (Z.to_nat (e mod Z.of_nat (length l))) 0) as [Hl|Hl]; [done|].
  pose proof (Z.mod_pos_bound e (Z.of_nat (length l))). lia.
Qed.

Lemma next_seed_nonempty (c : Cursor) :
  seeds c <> [] ->
  next_seed c = (Ok (nth (Z.to_nat (current_epoch c mod Z.of_nat (length (seeds c)))) (seeds c) 0),
                 {| seeds := seeds c; current_epoch := current_epoch c + 1 |}).
Proof.
  intros Hne. unfold next_seed. rewrite lookup_mod by done.
  destruct (seeds c); done.
Qed.

(** C6: on a non-empty seed list [next_seed] returns
    [seeds[epoch mod |seeds|]] and increments the epoch by one, so [m]
    successive calls return [seeds[(epoch + i) mod |seeds|]] for
    [i = 0 .. m-1] and leave the epoch at [epoch + m]; on an empty seed list it
    fails with the configuration error [ValueError("No seeds provided")] and
    leaves the cursor unchanged. *)
Theorem next_seed_cycles (c : Cursor) :
  (seeds c <> [] ->
     next_seed c = (Ok (nth (Z.to_nat (current_epoch c mod Z.of_nat (length (seeds c)))) (seeds c) 0),
                    {| seeds := seeds c; current_epoch := current_epoch c + 1 |}) /\
     forall m : nat,
       next_seeds m c =
       (map (fun i : nat => Ok (nth (Z.to_nat ((current_epoch c + Z.of_nat i) mod Z.of_nat (length (seeds c))))
                                   (seeds c) 0)) (seq 0 m),
        {| seeds := seeds c; current_epoch := current_epoch c + Z.of_nat m |})) /\
  (seeds c = [] -> next_seed c = (Err (ValueError "No seeds provided"), c)).
Proof.
  split.
  - intros Hne. split; [by apply next_seed_nonempty|].
    intros m. destruct c as [sd e]. simpl in *. revert e.
    induction m as [|m IH]; intros e.
    + simpl. by rewrite Z.add_0_r.
    + simpl. rewrite (next_seed_nonempty {| seeds := sd; current_epoch := e |} Hne). simpl.
      rewrite IH. rewrite Z.add_0_r. f_equal.
      * f_equal. rewrite <- seq_shift, map_map. apply map_ext. intros i. do 4 f_equal. lia.
      * f_equal. lia.
  - intros He. unfold next_seed. by rewrite He.
Qed.

(** Witness of C6: the cursor of the tests, seeds [10; 20; 30] at epoch 0. *)
Lemma next_seed_cycles_witness :
  fst (next_seeds 4 {| seeds := [10; 20; 30]; current_epoch := 0 |}) = [Ok 10; Ok 20; Ok 30; Ok 10] /\
  next_seed {| seeds := []; current_epoch := 5 |} =
    (Err (ValueError "No seeds provided"), {| seeds := []; current_epoch := 5 |}).
Proof.
  split.
  - destruct (next_seed_cycles {| seeds := [10; 20; 30]; current_epoch := 0 |}) as [H _].
    destruct (H ltac:(discriminate)) as [_ Hm]. rewrite Hm. reflexivity.
  - destruct (next_seed_cycles {| seeds := []; current_epoch := 5 |}) as [_ H]. by apply H.
Defined.

End PrngFacts.

Module RuntimeFacts.
Import Prng Runtime.
Open Scope float_scope.

(** C5 (failing input): losses [L+ = 1e38], [L- = -1e38] (finite, and
    representable in float32), [epsilon = 1e-300 > 0] and [max_norm = 1.0]
    on a fresh runtime.  [rho = (L+ - L-) / (2 epsilon)] overflows to [inf],
    the baseline becomes [inf], [rho_adj = inf - inf] is NaN, and
    [abs(NaN) > max_norm] is false, so the clip is skipped and the emitted
    scalar is NaN: [|scalar| <= max_norm] does not hold. *)
Theorem step_emits_nan_scalar :
  PrimFloat.is_finite 1e38 = true /\ PrimFloat.is_finite (-1e38) = true /\
  PrimFloat.is_finite 1e-300 = true /\ PrimFloat.ltb 0 1e-300 = true /\ PrimFloat.ltb 0 1 = true /\
  match step {| forward_infer := 0; forward_perturb := fun _ a => if PrimFloat.ltb 0 a then 1e38 else -1e38 |}
             (Const 1e-300) {| seeds := [42%Z]; current_epoch := 0%Z |} (init_runtime 1) with
  | (Ok r, _, _) =>
      PrimFloat.is_nan (raw_rho r) = false /\ PrimFloat.is_finite (raw_rho r) = false /\
      PrimFloat.is_nan (scalar r) = true /\ PrimFloat.leb (PrimFloat.abs (scalar r)) 1 = false
  | _ => False
  end.
Proof. vm_compute. repeat split. Qed.

End RuntimeFacts.

Module Sha256Facts.
Import Sha256.

Example sha256_abc : hexdigest (lit "abc") = lit "ba7816bf8f01cfea414140de5dae2223b00361a396177a9cb410ff61f20015ad".
Proof. vm_compute. reflexivity. Qed.

Example sha256_colons : hexdigest (lit "::") = lit "71546855d6279ef70d20909b292c42c2dcb02cd06bde01485da52d13e304ebf4".
Proof. vm_compute. reflexivity. Qed.

Example sha256_two_blocks : hexdigest (repeat 97 100) = lit "2816597888e4a0d3a36b82b83316ab32680eb8f00f8cd3b904d681246d285a0e".
Proof. vm_compute. reflexivity. Qed.

End Sha256Facts.

Module GatekeeperFacts.
Import PyLib Gatekeeper GatekeeperExamples.

Lemma word_bytes_range w : Forall byte (Sha256.word_bytes w).
Proof.
  unfold Sha256.word_bytes, byte.
  repeat constructor; apply Z.mod_pos_bound; lia.
Qed.

Lemma digest_range m : Forall byte (Sha256.digest m).
Proof.
  unfold Sha256.digest; cbv zeta.
  repeat apply Forall_app_2; apply word_bytes_range.
Qed.

Lemma digest_length m : length (Sha256.digest m) = 32%nat.
Proof.
  unfold Sha256.digest; cbv zeta.
  rewrite !length_app. unfold Sha256.word_bytes. reflexivity.
Qed.

Lemma hex_digit_inj a b : 0 <= a < 16 -> 0 <= b < 16 -> hex_digit a = hex_digit b -> a = b.
Proof.
  unfold hex_digit; intros Ha Hb.
  destruct (Z.ltb_spec a 10), (Z.ltb_spec b 10); lia.
Qed.

Lemma hex_inj d1 d2 : Forall byte d1 -> Forall byte d2 -> hex d1 = hex d2 -> d1 = d2.
Proof.
  revert d2; induction d1 as [|x d1 IH]; intros [|y d2] H1 H2 Heq; try discriminate; auto.
  inversion H1 as [|? ? Hx H1']; subst; inversion H2 as [|? ? Hy H2']; subst.
  unfold byte in *. simpl in Heq. injection Heq as E1 E2 E3.
  apply hex_digit_inj in E1; [|split; [apply Z.div_pos | apply Z.div_lt_upper_bound]; lia ..].
  apply hex_digit_inj in E2; [|apply Z.mod_pos_bound; lia ..].
  f_equal; [|apply IH; auto].
  rewrite (Z.div_mod x 16), (Z.div_mod y 16) by lia. lia.
Qed.

Lemma length_hex d : length (hex d) = (2 * length d)%nat.
Proof. induction d; simpl; [reflexivity|rewrite IHd; lia]. Qed.

Lemma hex_digit_alpha n : 0 <= n < 16 -> b64_alpha (hex_digit n).
Proof.
  intros Hn. unfold b64_alpha, hex_digit, b64_index.
  destruct (Z.ltb_spec n 10).
  - split; [lia|].
    destruct (Z.leb_spec 65 (48 + n)), (Z.leb_spec 97 (48 + n)),
             (Z.leb_spec 48 (48 + n)), (Z.leb_spec (48 + n) 57); simpl; try discriminate; lia.
  - split; [lia|].
    destruct (Z.leb_spec 65 (87 + n)), (Z.leb_spec (87 + n) 90); simpl; try lia;
    destruct (Z.leb_spec 97 (87 + n)), (Z.leb_spec (87 + n) 122); simpl; try discriminate; lia.
Qed.

Lemma hex_alpha d : Forall byte d -> Forall b64_alpha (hex d).
Proof.
  induction 1 as [|x d Hx _ IH]; simpl; [constructor|].
  unfold byte in Hx.
  constructor; [apply hex_digit_alpha; split; [apply Z.div_pos | apply Z.div_lt_upper_bound]; lia|].
  constructor; [apply hex_digit_alpha; apply Z.mod_pos_bound; lia|exact IH].
Qed.

(** Without padding, the decoder turns [N] alphabet characters into
    [3N/4] bytes (counted from the current quad position). *)
Lemma a2b_loop_length s : forall q lc p acc out,
  Forall b64_alpha s -> 0 <= q <= 3 -> a2b_loop s q lc p acc = Some out ->
  4 * Z.of_nat (length out) = 4 * Z.of_nat (length acc) + 3 * Z.of_nat (length s) - phi q.
Proof.
  induction s as [|c s IH]; intros q lc p acc out Hs Hq Hrun; simpl in Hrun.
  - destruct (Z.eqb_spec q 0); [|discriminate].
    injection Hrun as <-. rewrite length_rev. subst q. unfold phi. simpl. lia.
  - inversion Hs as [|? ? [Hc Hv] Hs']; subst.
    destruct (Z.eqb_spec c 61); [contradiction|].
    destruct (b64_index c) as [v|]; [|contradiction].
    cbn [length]. rewrite Nat2Z.inj_succ.
    destruct (Z.eqb_spec q 0); [subst; apply IH in Hrun; auto; unfold phi in *; simpl in *; lia|].
    destruct (Z.eqb_spec q 1); [subst; apply IH in Hrun; auto; unfold phi in *; simpl in *; lia|].
    destruct (Z.eqb_spec q 2); [subst; apply IH in Hrun; auto; unfold phi in *; simpl in *; lia|].
    apply IH in Hrun; auto; [|lia].
    assert (q = 3) by lia. subst. unfold phi in *. simpl in *. lia.
Qed.

Lemma land_255_byte x : byte (Z.land x 255).
Proof.
  unfold byte. change 255 with (Z.ones 8). rewrite Z.land_ones by lia.
  apply Z.mod_pos_bound. lia.
Qed.

Lemma a2b_loop_range s : forall q lc p acc out,
  Forall byte acc -> a2b_loop s q lc p acc = Some out -> Forall byte out.
Proof.
  induction s as [|c s IH]; intros q lc p acc out Hacc Hrun; simpl in Hrun.
  - destruct (q =? 0); [|discriminate]. injection Hrun as <-. apply Forall_rev. exact Hacc.
  - destruct (c =? 61).
    + destruct ((2 <=? q) && (4 <=? q + (p + 1))).
      * injection Hrun as <-. apply Forall_rev. exact Hacc.
      * eapply IH; eauto.
    + destruct (b64_index c) as [v|]; [|eapply IH; eauto].
      destruct (q =? 0); [eapply IH; eauto|].
      destruct (q =? 1); [eapply IH; [|exact Hrun]; constructor; auto using land_255_byte|].
      destruct (q =? 2); eapply IH; (try exact Hrun); constructor; auto using land_255_byte.
Qed.

Lemma b64decode_range s out : b64decode s = Some out -> Forall byte out.
Proof.
  unfold b64decode, a2b_base64. destruct (forallb _ s); [|discriminate].
  apply a2b_loop_range. constructor.
Qed.

(** The code's nonce test is the amended rule, for a digest. *)
Lemma nonce_ok_iff v m :
  nonce_ok v (hex (Sha256.digest m)) = true <-> nonce_matches v (Sha256.digest m).
Proof.
  destruct v as [| | | |s| |]; simpl; try (split; [discriminate|contradiction]).
  case_bool_decide as Hs.
  - split; auto.
  - destruct (b64decode s) as [dec|] eqn:Hd.
    + rewrite bool_decide_eq_true. split.
      * intros Hh. right. f_equal.
        apply hex_inj; auto using digest_range. eapply b64decode_range; eauto.
      * intros [->|Hdec]; [contradiction|]. injection Hdec as ->. reflexivity.
    + split; [discriminate|]. intros [->|Hdec]; [contradiction|discriminate].
Qed.

(** One nonce cannot stand for two digests. *)
Lemma nonce_matches_unique v m1 m2 :
  nonce_matches v (Sha256.digest m1) -> nonce_matches v (Sha256.digest m2) ->
  Sha256.digest m1 = Sha256.digest m2.
Proof.
  assert (Hcross : forall s ma mb, s = hex (Sha256.digest ma) -> b64decode s = Some (Sha256.digest mb) -> False).
  { intros s ma mb -> Hd. unfold b64decode in Hd.
    destruct (forallb _ _); [|discriminate].
    apply a2b_loop_length in Hd; [|apply hex_alpha, digest_range|lia].
    rewrite length_hex, !digest_length in Hd. unfold phi in Hd. simpl in Hd. lia. }
  destruct v as [| | | |s| |]; unfold nonce_matches; try contradiction.
  intros [H1|H1] [H2|H2].
  - apply hex_inj; auto using digest_range. congruence.
  - exfalso. eauto.
  - exfalso. eauto.
  - congruence.
Qed.

(** [verify_update] once the signature holds and the service has answered
    200 with a valid signature and basic integrity. *)
Lemma verify_update_answered ed_verify oracle u pk payload tok kvs :
  signature_check ed_verify u pk = Some payload ->
  utf8_decode (attestation_token u) = Some tok ->
  oracle tok = OResponse 200 (Some (JObj kvs)) ->
  truthy (jget kvs (lit "isValidSignature") (JBool false)) = true ->
  truthy (jget kvs (lit "basicIntegrity") (JBool false)) = true ->
  verify_update ed_verify oracle u pk =
    if nonce_ok (jget kvs (lit "nonce") JNull) (hex (Sha256.digest payload)) then Accepted else Rejected.
Proof.
  intros Hsig Htok Hor Hvalid Hint.
  unfold verify_update, verify_attestation. rewrite Hsig, Htok, Hor.
  cbn [negb Z.eqb Pos.eqb]. rewrite Hvalid, Hint. unfold Sha256.hexdigest. cbn [negb].
  destruct (nonce_ok _ _); reflexivity.
Qed.

(** C3 (amended).  Once the signature over [payload] holds and the
    attestation service answers 200 with [isValidSignature] and
    [basicIntegrity] true, the update is accepted exactly when the returned
    nonce is the hex SHA-256 of [payload], or a [str] that the lenient
    [base64.b64decode] turns into the digest bytes; otherwise it is
    rejected ([False]).  Hence an answer accepted for one payload, replayed
    for an update whose payload has another digest, is rejected. *)
Theorem nonce_binding (ed_verify : pybytes -> pybytes -> pybytes -> bool)
    (oracle : pystr -> outcome) (u : ClientUpdate) (pk payload : pybytes) (tok : pystr)
    (kvs : list (pystr * jval)) :
  signature_check ed_verify u pk = Some payload ->
  utf8_decode (attestation_token u) = Some tok ->
  oracle tok = OResponse 200 (Some (JObj kvs)) ->
  truthy (jget kvs (lit "isValidSignature") (JBool false)) = true ->
  truthy (jget kvs (lit "basicIntegrity") (JBool false)) = true ->
  (verify_update ed_verify oracle u pk = Accepted <->
     nonce_matches (jget kvs (lit "nonce") JNull) (Sha256.digest payload)) /\
  (verify_update ed_verify oracle u pk = Accepted \/ verify_update ed_verify oracle u pk = Rejected) /\
  (verify_update ed_verify oracle u pk = Accepted ->
   forall (u' : ClientUpdate) (pk' payload' : pybytes) (tok' : pystr),
     signature_check ed_verify u' pk' = Some payload' ->
     utf8_decode (attestation_token u') = Some tok' ->
     oracle tok' = oracle tok ->
     Sha256.digest payload' <> Sha256.digest payload ->
     verify_update ed_verify oracle u' pk' = Rejected).
Proof.
  intros Hsig Htok Hor Hvalid Hint.
  rewrite (verify_update_answered ed_verify oracle u pk payload tok kvs) by assumption.
  split; [|split].
  - rewrite <- nonce_ok_iff. destruct (nonce_ok _ _); split; congruence.
  - destruct (nonce_ok _ _); auto.
  - destruct (nonce_ok _ _) eqn:Hn; [|discriminate]. intros _ u' pk' payload' tok' Hsig' Htok' Hor' Hdiff.
    rewrite Hor in Hor'.
    rewrite (verify_update_answered ed_verify oracle u' pk' payload' tok' kvs) by assumption.
    destruct (nonce_ok _ (hex (Sha256.digest payload'))) eqn:Hn'; [|reflexivity].
    apply nonce_ok_iff in Hn, Hn'. exfalso. apply Hdiff.
    eapply nonce_matches_unique; eauto.
Qed.

(** Witness of [nonce_binding]: the scenario [(42, 0.1, 7)] with the
    canonical base64 nonce is accepted, and the same answer replayed for the
    re-signed [(42, 0.2, 7)] is rejected. *)
Lemma nonce_binding_witness :
  (verify_update toy_verify (fun _ => ex_response (JStr canonical_nonce)) (ex_update 0.1%float) ex_pk = Accepted <->
     nonce_matches (JStr canonical_nonce) (Sha256.digest ex_payload)) /\
  verify_update toy_verify (fun _ => ex_response (JStr canonical_nonce)) (ex_update 0.2%float) ex_pk = Rejected.
Proof.
  destruct (nonce_binding toy_verify (fun _ => ex_response (JStr canonical_nonce)) (ex_update 0.1%float)
              ex_pk ex_payload (lit "mock_integrity_token_from_device")
              [(lit "isValidSignature", JBool true); (lit "nonce", JStr canonical_nonce);
               (lit "basicIntegrity", JBool true)])
    as [Hiff [_ Hreplay]]; [vm_compute; reflexivity ..|].
  split; [exact Hiff|].
  apply (Hreplay (proj2 Hiff (or_intror eq_refl)) (ex_update 0.2%float) ex_pk (lit "42:0.2:7")
           (lit "mock_integrity_token_from_device")); [vm_compute; reflexivity ..|].
  vm_compute. discriminate.
Defined.

(** C3 (counterexample).  With the signature valid and a 200 answer, the
    nonce [b64encode(digest) + "\n"] is accepted although it is neither the
    hex digest, nor the base64 of the digest bytes, nor the base64 of the
    bytes of the hex string; and the base64 of the bytes of the hex string
    is rejected. *)
Lemma nonce_binding_counterexample :
  verify_update toy_verify (fun _ => ex_response (JStr lenient_nonce)) (ex_update 0.1%float) ex_pk = Accepted /\
  bool_decide (lenient_nonce = Sha256.hexdigest ex_payload) = false /\
  bool_decide (lenient_nonce = b64encode (Sha256.digest ex_payload)) = false /\
  bool_decide (lenient_nonce = b64encode (Sha256.hexdigest ex_payload)) = false /\
  verify_update toy_verify (fun _ => ex_response (JStr (b64encode (Sha256.hexdigest ex_payload))))
    (ex_update 0.1%float) ex_pk = Rejected.
Proof. vm_compute. repeat split. Qed.

(** C4.  Whenever the call to the attestation service raises (HTTP error,
    network error, timeout, any other exception), [verify_update] never
    accepts; it returns [False] whenever the token is valid UTF-8 (else the
    decode error escapes before any call is made). *)
Theorem verdict_unreachable_fail_closed (ed_verify : pybytes -> pybytes -> pybytes -> bool)
    (oracle : pystr -> outcome) (u : ClientUpdate) (pk : pybytes) :
  (forall tok, utf8_decode (attestation_token u) = Some tok -> exists e, oracle tok = ORaise e) ->
  verify_update ed_verify oracle u pk <> Accepted /\
  (utf8_decode (attestation_token u) <> None -> verify_update ed_verify oracle u pk = Rejected).
Proof.
  intros Hor. unfold verify_update.
  destruct (signature_check ed_verify u pk) as [payload|]; [|split; [discriminate|reflexivity]].
  unfold verify_attestation.
  destruct (utf8_decode (attestation_token u)) as [tok|] eqn:Htok.
  - destruct (Hor tok eq_refl) as [e ->]. split; [discriminate|reflexivity].
  - split; [discriminate|]. intros Hn. contradiction.
Qed.

(** Witness of [verdict_unreachable_fail_closed]: a timing-out service. *)
Lemma verdict_unreachable_fail_closed_witness :
  verify_update toy_verify (fun _ => ORaise TimeoutError) (ex_update 0.1%float) ex_pk <> Accepted /\
  verify_update toy_verify (fun _ => ORaise TimeoutError) (ex_update 0.1%float) ex_pk = Rejected.
Proof.
  destruct (verdict_unreachable_fail_closed toy_verify (fun _ => ORaise TimeoutError) (ex_update 0.1%float) ex_pk)
    as [Hna Hrej]; [intros tok _; exists TimeoutError; reflexivity|].
  split; [exact Hna|]. apply Hrej. vm_compute. discriminate.
Defined.

End GatekeeperFacts.

Module SignFacts.
Import PyLib Gatekeeper GatekeeperExamples.

Lemma utf8_encode_below128 s : Forall below128 s -> utf8_encode s = Some s.
Proof.
  induction 1 as [|c s Hc _ IH]; [reflexivity|].
  unfold below128 in Hc. simpl. rewrite IH.
  unfold utf8_char. destruct (Z.ltb_spec c 128); [reflexivity|lia].
Qed.

Lemma Forall_repeat_below128 c n : below128 c -> Forall below128 (repeat c n).
Proof. intros Hc. induction n; simpl; constructor; auto. Qed.

Lemma dec_digits_below128 fuel : forall n acc,
  Forall below128 acc -> Forall below128 (dec_digits fuel n acc).
Proof.
  unfold below128.
  induction fuel as [|fuel IH]; intros n acc Hacc; simpl; [exact Hacc|].
  destruct (Z.ltb_spec n 10).
  - constructor; [lia|exact Hacc].
  - apply IH. constructor; [pose proof (Z.mod_pos_bound n 10); lia|exact Hacc].
Qed.

Lemma dec_nat_below128 n : Forall below128 (dec_nat n).
Proof. apply dec_digits_below128. constructor. Qed.

Lemma str_int_below128 i : Forall below128 (str_int i).
Proof.
  unfold str_int. destruct (i <? 0).
  - constructor; [unfold below128; lia|apply dec_nat_below128].
  - apply dec_nat_below128.
Qed.

Ltac below128_tac :=
  repeat match goal with
  | |- Forall _ (_ ++ _) => apply Forall_app_2
  | |- Forall _ (_ :: _) => constructor
  | |- Forall _ [] => constructor
  | |- Forall _ (if ?b then _ else _) => destruct b
  | |- Forall _ (lit _) => simpl
  | |- Forall _ (repeat _ _) => apply Forall_repeat_below128
  | |- Forall _ (dec_nat _) => apply dec_nat_below128
  | |- Forall _ (firstn _ _) => apply Forall_take
  | |- Forall _ (skipn _ _) => apply Forall_drop
  | |- below128 (ch _) => vm_compute; reflexivity
  | |- below128 _ => unfold below128; lia
  end.

Lemma format_r_below128 digits decpt :
  Forall below128 digits -> Forall below128 (PyFloat.format_r digits decpt).
Proof.
  intros Hd. unfold PyFloat.format_r. cbv zeta.
  below128_tac; try assumption;
    destruct digits as [|c digits]; simpl; try constructor; try (inversion Hd; assumption).
Qed.

Lemma float_repr_below128 x : Forall below128 (PyFloat.float_repr x).
Proof.
  unfold PyFloat.float_repr.
  destruct (Prim2SF x) as [sg|sg| |sg m e]; [destruct sg; below128_tac ..|below128_tac|].
  cbv zeta.
  destruct (PyFloat.shortest _ _ _ _ _ _ _) as [D k].
  destruct (PyFloat.strip_zeros _ _ _) as [D' k'].
  apply Forall_app_2; [destruct sg; below128_tac|].
  apply format_r_below128, dec_nat_below128.
Qed.

Lemma payload_str_below128 seed x r : Forall below128 (payload_str seed x r).
Proof.
  unfold payload_str.
  repeat apply Forall_app_2; auto using str_int_below128, float_repr_below128;
  repeat constructor; unfold below128; lia.
Qed.

Section SignVerify.

Variable ed_sign : pybytes -> pybytes -> pybytes.
Variable ed_verify : pybytes -> pybytes -> pybytes -> bool.
(** The raw public key of a private key ([get_public_key_bytes]). *)
Variable public_key : pybytes -> pybytes.
Hypothesis public_key_length : forall sk, length (public_key sk) = 32%nat.
(** Ed25519 correctness: a signature made with [sk] verifies under its key. *)
Hypothesis ed_correct : forall sk msg, ed_verify (public_key sk) (ed_sign sk msg) msg = true.

(** C9.  [sign_update] always returns a signature (the payload string is
    ASCII, so the UTF-8 encoding never fails), and for any update carrying
    the same [seed_id], [scalar] and [round_id] with that signature, the
    Gatekeeper's signature check under the signer's public key passes on
    the same payload bytes: [verify_update] goes on to the attestation
    check with [sha256(payload).hexdigest()]. *)
Theorem sign_update_verifies (sk : pybytes) (seed : Z) (x : float) (r : Z) :
  exists sig payload,
    sign_update ed_sign sk seed x r = Some sig /\
    utf8_encode (payload_str seed x r) = Some payload /\
    forall (oracle : pystr -> outcome) (u : ClientUpdate),
      seed_id u = seed -> scalar u = x -> round_id u = r -> signature u = sig ->
      signature_check ed_verify u (public_key sk) = Some payload /\
      verify_update ed_verify oracle u (public_key sk) =
        verify_attestation oracle (attestation_token u) (Sha256.hexdigest payload).
Proof.
  pose proof (utf8_encode_below128 _ (payload_str_below128 seed x r)) as Henc.
  exists (ed_sign sk (payload_str seed x r)), (payload_str seed x r).
  unfold sign_update. rewrite Henc. split; [reflexivity|split; [reflexivity|]].
  intros oracle u Hs Hx Hr Hsig.
  assert (Hchk : signature_check ed_verify u (public_key sk) = Some (payload_str seed x r)).
  { unfold signature_check. rewrite public_key_length. simpl.
    rewrite Hs, Hx, Hr, Henc, Hsig, ed_correct. reflexivity. }
  split; [exact Hchk|]. unfold verify_update. rewrite Hchk. reflexivity.
Qed.

End SignVerify.

(** Witness of [sign_update_verifies] with the stand-in scheme, for the
    spec's [(42, 0.1, 7)]. *)
Lemma sign_update_verifies_witness :
  exists sig payload,
    sign_update toy_sign [] 42 0.1%float 7 = Some sig /\
    utf8_encode (payload_str 42 0.1%float 7) = Some payload /\
    forall (oracle : pystr -> outcome) (u : ClientUpdate),
      seed_id u = 42 -> scalar u = 0.1%float -> round_id u = 7 -> signature u = sig ->
      signature_check toy_verify u (toy_public []) = Some payload /\
      verify_update toy_verify oracle u (toy_public []) =
        verify_attestation oracle (attestation_token u) (Sha256.hexdigest payload).
Proof.
  apply (sign_update_verifies toy_sign toy_verify toy_public).
  - intros sk. reflexivity.
  - intros sk msg. unfold toy_verify, toy_sign. apply bool_decide_eq_true. reflexivity.
Defined.

End SignFacts.

Module AttestationFacts.
Import PyLib Attestation GatekeeperFacts.










End AttestationFacts.

Module CollectorFacts.
Import Gatekeeper Collector CollectorViews.

Lemma check_round_safe k_threshold ks : forall st log,
  Forall (fun t => k_threshold <= t_count t) log ->
  Forall (fun t => k_threshold <= t_count t) (snd (fold_left (check_round k_threshold) ks (st, log))).
Proof.
  induction ks as [|r ks IH]; intros st log Hlog; [exact Hlog|].
  cbn [fold_left].
  destruct (check_round k_threshold (st, log) r) as [st' log'] eqn:E.
  apply IH. unfold check_round, trigger_aggregation in E.
  destruct (Z.leb_spec k_threshold (get_count st r)); injection E as <- <-; [|exact Hlog].
  apply Forall_app_2; [exact Hlog|]. constructor; [simpl; lia|constructor].
Qed.

Lemma run_safe k_threshold serialize evs : forall st,
  Forall (fun t => k_threshold <= t_count t) (snd (run k_threshold serialize evs st)).
Proof.
  induction evs as [|[u|] evs IH]; intros st; simpl; [constructor|apply IH|].
  destruct (poll k_threshold st) as [st' log] eqn:Ep.
  pose proof (IH st') as Hrest.
  destruct (run k_threshold serialize evs st') as [st'' log'].
  apply Forall_app_2; [|exact Hrest].
  unfold poll in Ep. pose proof (check_round_safe k_threshold (map fst (map_to_list (counts st))) st [])
    as Hp. rewrite Ep in Hp. apply Hp. constructor.
Qed.

Lemma run_submits k_threshold serialize us evs : forall st,
  run k_threshold serialize (map Submit us ++ evs) st =
  run k_threshold serialize evs (fold_left (fun st u => snd (submit_update serialize true u st)) us st).
Proof. induction us as [|u us IH]; intros st; simpl; [reflexivity|apply IH]. Qed.

Lemma submits_one_round serialize r us : forall u st,
  Forall (fun u => round_id u = r) (u :: us) ->
  fold_left (fun st u => snd (submit_update serialize true u st)) (u :: us) st =
  {| updates := <[r := rev (map serialize (u :: us)) ++ lrange st r]> (updates st);
     counts := <[r := get_count st r + Z.of_nat (length (u :: us))]> (counts st) |}.
Proof.
  induction us as [|u' us IH]; intros u st Hr; apply Forall_cons in Hr as [Hu Hr'].
  - simpl. rewrite Hu. reflexivity.
  - change (fold_left (fun st u => snd (submit_update serialize true u st)) (u :: u' :: us) st)
      with (fold_left (fun st u => snd (submit_update serialize true u st)) (u' :: us)
              (snd (submit_update serialize true u st))).
    rewrite IH by exact Hr'.
    simpl. rewrite Hu. unfold lrange at 1, get_count at 1. simpl.
    rewrite !lookup_insert_eq, !insert_insert_eq.
    f_equal; f_equal.
    + rewrite <- !app_assoc. reflexivity.
    + unfold get_count; simpl. rewrite lookup_insert_eq. lia.
Qed.

Lemma poll_empty k_threshold serialize n :
  run k_threshold serialize (repeat Poll n) empty_store = (empty_store, []).
Proof.
  induction n as [|n IH]; [reflexivity|].
  simpl. unfold poll. simpl. rewrite map_to_list_empty. simpl. rewrite IH. reflexivity.
Qed.

Lemma polls_fixed k_threshold serialize st n :
  poll k_threshold st = (st, []) -> run k_threshold serialize (repeat Poll n) st = (st, []).
Proof.
  intros Hp. induction n as [|n IH]; [reflexivity|].
  simpl. rewrite Hp, IH. reflexivity.
Qed.

(** Quorum behaviour of the collector.  Every trigger happens at a key
    whose stored count has reached the threshold [K].  From an empty store,
    [n >= K >= 1] submissions for round [r] followed by polls trigger
    [_trigger_aggregation(r)] exactly once, with the count [n] and all [n]
    serialized updates (newest first), and leave neither key behind; with
    fewer than [K] no trigger happens and the counter keeps the count. *)
Theorem quorum_trigger (k_threshold : Z) (serialize : ClientUpdate -> pybytes) (r : Z)
    (us : list ClientUpdate) (polls : nat) :
  1 <= k_threshold -> Forall (fun u => round_id u = r) us ->
  (forall evs st, Forall (fun t => k_threshold <= t_count t) (snd (run k_threshold serialize evs st))) /\
  (k_threshold <= Z.of_nat (length us) ->
     run k_threshold serialize (map Submit us ++ repeat Poll (S polls)) empty_store =
       (empty_store, [{| t_round := r; t_count := Z.of_nat (length us);
                         t_updates := rev (map serialize us) |}])) /\
  (Z.of_nat (length us) < k_threshold ->
     snd (run k_threshold serialize (map Submit us ++ repeat Poll (S polls)) empty_store) = [] /\
     counts (fst (run k_threshold serialize (map Submit us ++ repeat Poll (S polls)) empty_store)) !! r =
       match us with [] => None | _ => Some (Z.of_nat (length us)) end).
Proof.
  intros HK Hr. split; [intros; apply run_safe|].
  rewrite run_submits.
  destruct us as [|u us'].
  - cbn [fold_left]. rewrite !poll_empty. split; [simpl; lia|]. split; reflexivity.
  - rewrite (submits_one_round serialize r us' u empty_store Hr).
    set (n := Z.of_nat (length (u :: us'))).
    set (S1 := {| updates := <[r := rev (map serialize (u :: us')) ++ lrange empty_store r]> (updates empty_store);
                  counts := <[r := get_count empty_store r + n]> (counts empty_store) |}).
    assert (Hpoll : poll k_threshold S1 =
      if k_threshold <=? n
      then (empty_store, [{| t_round := r; t_count := n; t_updates := rev (map serialize (u :: us')) |}])
      else (S1, [])).
    { unfold poll, S1, lrange, get_count. cbn [updates counts empty_store].
      rewrite !lookup_empty, app_nil_r, !insert_empty, map_to_list_singleton.
      cbn [map fst fold_left check_round trigger_aggregation].
      unfold get_count, lrange. cbn [updates counts]. rewrite !lookup_singleton_eq.
      replace (0 + n) with n by lia.
      destruct (k_threshold <=? n); [|reflexivity].
      unfold empty_store. rewrite !delete_singleton_eq. reflexivity. }
    split.
    + intros Hle. change (repeat Poll (S polls)) with (Poll :: repeat Poll polls).
      cbn [run]. rewrite Hpoll.
      replace (k_threshold <=? n) with true by (symmetry; apply Z.leb_le; exact Hle).
      rewrite poll_empty. reflexivity.
    + intros Hlt. rewrite polls_fixed.
      * split; [reflexivity|]. unfold S1, get_count. cbn [counts empty_store].
        cbn [fst counts]. rewrite lookup_insert_eq, lookup_empty. f_equal.
      * rewrite Hpoll. replace (k_threshold <=? n) with false by (symmetry; apply Z.leb_gt; exact Hlt).
        reflexivity.
Qed.

(** Witness of [quorum_trigger]: the spec's quorum edge with [K = 3]. *)
Lemma quorum_trigger_witness :
  run 3 wire_format (map Submit [round7_update [1]; round7_update [2]; round7_update [3]] ++ repeat Poll 2)
    empty_store =
  (empty_store, [{| t_round := 7; t_count := 3;
                    t_updates := rev (map wire_format [round7_update [1]; round7_update [2]; round7_update [3]]) |}]).
Proof.
  destruct (quorum_trigger 3 wire_format 7 [round7_update [1]; round7_update [2]; round7_update [3]] 1)
    as [_ [Hq _]]; [lia|repeat constructor|].
  apply Hq. simpl. lia.
Defined.





(** C8 (amended).  [submit_update] checks neither the signature nor the
    attestation token: replacing them leaves the result ([True] exactly
    when the pipeline succeeds), the counter writes and every other round's
    list unchanged; the one difference is the value pushed on
    [updates(round_id)], which is [serialize] of the update; with a codec
    that does not distinguish the two updates the stores are equal. *)
Theorem submit_ignores_credentials (serialize : ClientUpdate -> pybytes) (pipeline_ok : bool)
    (u : ClientUpdate) (sig token : pybytes) (st : Store) :
  fst (submit_update serialize pipeline_ok u st) = pipeline_ok /\
  fst (submit_update serialize pipeline_ok (with_credentials u sig token) st) = pipeline_ok /\
  counts (snd (submit_update serialize pipeline_ok u st)) =
    counts (snd (submit_update serialize pipeline_ok (with_credentials u sig token) st)) /\
  (forall r, r <> round_id u ->
     updates (snd (submit_update serialize pipeline_ok u st)) !! r =
     updates (snd (submit_update serialize pipeline_ok (with_credentials u sig token) st)) !! r) /\
  (pipeline_ok = true ->
     updates (snd (submit_update serialize pipeline_ok u st)) !! round_id u =
       Some (serialize u :: lrange st (round_id u)) /\
     updates (snd (submit_update serialize pipeline_ok (with_credentials u sig token) st)) !! round_id u =
       Some (serialize (with_credentials u sig token) :: lrange st (round_id u))) /\
  (pipeline_ok = false ->
     snd (submit_update serialize pipeline_ok u st) = st /\
     snd (submit_update serialize pipeline_ok (with_credentials u sig token) st) = st) /\
  (serialize (with_credentials u sig token) = serialize u ->
     snd (submit_update serialize pipeline_ok u st) =
     snd (submit_update serialize pipeline_ok (with_credentials u sig token) st)).
Proof.
  unfold submit_update. destruct pipeline_ok; simpl.
  - repeat split; try (intros; rewrite lookup_insert_eq; reflexivity); try discriminate.
    + intros r Hr. rewrite !lookup_insert_ne by congruence. reflexivity.
    + intros ->. reflexivity.
  - repeat split; try discriminate.
Qed.

(** C8 (counterexample): two updates for round 7 that differ only in their
    signature ([[1]] and [[2]]) push different bytes, since the protobuf
    wire form carries the signature: the store writes differ. *)
Lemma submit_writes_differ :
  round7_update [2] = with_credentials (round7_update [1]) [2] (lit "token") /\
  updates (snd (submit_update wire_format true (round7_update [1]) empty_store)) !! 7 =
    Some [wire_format (round7_update [1])] /\
  updates (snd (submit_update wire_format true (round7_update [2]) empty_store)) !! 7 =
    Some [wire_format (round7_update [2])] /\
  bool_decide (wire_format (round7_update [1]) = wire_format (round7_update [2])) = false.
Proof. split; [reflexivity|]. vm_compute. repeat split. Qed.

End CollectorFacts.

Module SecurityFacts.
Import PyLib Security.

Ltac dlia := Z.div_mod_to_equations; lia.

Lemma forallb_zrange (f : Z -> bool) (n : nat) :
  forallb f (zrange n) = true -> forall v, 0 <= v < Z.of_nat n -> f v = true.
Proof.
  intros H v Hv. apply (proj1 (forallb_forall f (zrange n)) H).
  unfold zrange. apply in_map_iff. exists (Z.to_nat v). split; [lia|]. apply in_seq. lia.
Qed.

Lemma b64_char_ok v : 0 <= v < 64 ->
  b64_index (b64_char v) = Some v /\ (b64_char v =? 61) = false /\ (b64_char v <? 128) = true.
Proof.
  intros Hv.
  pose proof (forallb_zrange
    (fun v => match b64_index (b64_char v) with Some w => w =? v | None => false end &&
              negb (b64_char v =? 61) && (b64_char v <? 128))
    64 ltac:(vm_compute; reflexivity) v ltac:(lia)) as H.
  apply andb_prop in H as [H H3]. apply andb_prop in H as [H1 H2].
  destruct (b64_index (b64_char v)) as [w|]; [|discriminate].
  apply Z.eqb_eq in H1. apply negb_true_iff in H2. subst w. done.
Qed.

(** The three bytes [a2b_base64] rebuilds from the four sextets of a quad. *)
Lemma byte0_ok b0 h : byte b0 -> 0 <= h < 16 ->
  Z.land (Z.lor (Z.shiftl (b0 / 4) 2) (Z.shiftr ((b0 mod 4) * 16 + h) 4)) 255 = b0.
Proof.
  intros Hb Hh. unfold byte in Hb. apply Z.eqb_eq.
  refine (forallb_zrange _ 16 (forallb_zrange (fun b0 => forallb (fun h =>
    Z.land (Z.lor (Z.shiftl (b0 / 4) 2) (Z.shiftr ((b0 mod 4) * 16 + h) 4)) 255 =? b0) (zrange 16))
    256 ltac:(vm_compute; reflexivity) b0 ltac:(lia)) h ltac:(lia)).
Qed.

Lemma byte1_ok a b1 c : 0 <= a < 4 -> byte b1 -> 0 <= c < 4 ->
  Z.land (Z.lor (Z.shiftl (Z.land (a * 16 + b1 / 16) 15) 4) (Z.shiftr ((b1 mod 16) * 4 + c) 2)) 255 = b1.
Proof.
  intros Ha Hb Hc. unfold byte in Hb. apply Z.eqb_eq.
  refine (forallb_zrange _ 4 (forallb_zrange _ 256 (forallb_zrange (fun a => forallb (fun b1 => forallb (fun c =>
    Z.land (Z.lor (Z.shiftl (Z.land (a * 16 + b1 / 16) 15) 4) (Z.shiftr ((b1 mod 16) * 4 + c) 2)) 255 =? b1)
    (zrange 4)) (zrange 256)) 4 ltac:(vm_compute; reflexivity) a ltac:(lia)) b1 ltac:(lia)) c ltac:(lia)).
Qed.

Lemma byte2_ok l b2 : 0 <= l < 16 -> byte b2 ->
  Z.land (Z.lor (Z.shiftl (Z.land (l * 4 + b2 / 64) 3) 6) (b2 mod 64)) 255 = b2.
Proof.
  intros Hl Hb. unfold byte in Hb. apply Z.eqb_eq.
  refine (forallb_zrange _ 256 (forallb_zrange (fun l => forallb (fun b2 =>
    Z.land (Z.lor (Z.shiftl (Z.land (l * 4 + b2 / 64) 3) 6) (b2 mod 64)) 255 =? b2) (zrange 256))
    16 ltac:(vm_compute; reflexivity) l ltac:(lia)) b2 ltac:(lia)).
Qed.

Lemma b64encode_ind (P : pybytes -> Prop) :
  P [] -> (forall b0, P [b0]) -> (forall b0 b1, P [b0; b1]) ->
  (forall b0 b1 b2 r, P r -> P (b0 :: b1 :: b2 :: r)) -> forall bs, P bs.
Proof.
  intros H0 H1 H2 H3 bs.
  assert (forall n bs, (length bs <= n)%nat -> P bs) as Hn; [|exact (Hn _ bs (le_n _))].
  induction n as [|n IH]; intros [|b0 [|b1 [|b2 r]]] Hl; simpl in Hl; auto; try lia.
  apply H3, IH. lia.
Qed.

Lemma b64encode_ascii bs : Forall byte bs -> forallb (fun c => c <? 128) (b64encode bs) = true.
Proof.
  induction bs as [| b0 | b0 b1 | b0 b1 b2 r IH] using b64encode_ind; intros F;
    repeat match goal with H : Forall _ (_ :: _) |- _ => apply Forall_cons in H as [? ?] end;
    unfold byte in *; cbn [b64encode app forallb]; [reflexivity| | |].
  - rewrite (proj2 (proj2 (b64_char_ok (b0 / 4) ltac:(dlia)))),
            (proj2 (proj2 (b64_char_ok ((b0 mod 4) * 16) ltac:(dlia)))). reflexivity.
  - rewrite (proj2 (proj2 (b64_char_ok (b0 / 4) ltac:(dlia)))),
            (proj2 (proj2 (b64_char_ok ((b0 mod 4) * 16 + b1 / 16) ltac:(dlia)))),
            (proj2 (proj2 (b64_char_ok ((b1 mod 16) * 4) ltac:(dlia)))). reflexivity.
  - rewrite (proj2 (proj2 (b64_char_ok (b0 / 4) ltac:(dlia)))),
            (proj2 (proj2 (b64_char_ok ((b0 mod 4) * 16 + b1 / 16) ltac:(dlia)))),
            (proj2 (proj2 (b64_char_ok ((b1 mod 16) * 4 + b2 / 64) ltac:(dlia)))),
            (proj2 (proj2 (b64_char_ok (b2 mod 64) ltac:(dlia)))).
    apply IH. assumption.
Qed.

(** [a2b_base64] reads back what [b64encode] wrote; when the encoding ends
    in a pad, whatever follows it is ignored. *)
Lemma a2b_b64encode bs : forall acc s, Forall byte bs ->
  (s = [] \/ (length bs mod 3 <> 0)%nat) ->
  a2b_loop (b64encode bs ++ s) 0 0 0 acc = Some (rev acc ++ bs).
Proof.
  induction bs as [| b0 | b0 b1 | b0 b1 b2 r IH] using b64encode_ind; intros acc s F Hs;
    repeat match goal with H : Forall _ (_ :: _) |- _ => apply Forall_cons in H as [? ?] end;
    unfold byte in *.
  - destruct Hs as [->|Hs]; [|simpl in Hs; done]. simpl. by rewrite app_nil_r.
  - destruct (b64_char_ok (b0 / 4) ltac:(dlia)) as [I0 [E0 _]].
    destruct (b64_char_ok ((b0 mod 4) * 16) ltac:(dlia)) as [I1 [E1 _]].
    cbn [b64encode app a2b_loop]. rewrite E0, I0. cbn [Z.eqb].
    rewrite E1, I1. cbn -[Z.land Z.lor Z.shiftl Z.shiftr Z.div Z.modulo].
    rewrite <- (Z.add_0_r ((b0 mod 4) * 16)), byte0_ok by (unfold byte; dlia). reflexivity.
  - destruct (b64_char_ok (b0 / 4) ltac:(dlia)) as [I0 [E0 _]].
    destruct (b64_char_ok ((b0 mod 4) * 16 + b1 / 16) ltac:(dlia)) as [I1 [E1 _]].
    destruct (b64_char_ok ((b1 mod 16) * 4) ltac:(dlia)) as [I2 [E2 _]].
    cbn [b64encode app a2b_loop]. rewrite E0, I0. cbn [Z.eqb].
    rewrite E1, I1. cbn [Z.eqb Pos.eqb]. rewrite E2, I2. cbn -[Z.land Z.lor Z.shiftl Z.shiftr Z.div Z.modulo].
    rewrite byte0_ok by (unfold byte; dlia).
    rewrite <- (Z.add_0_r ((b1 mod 16) * 4)), byte1_ok by (unfold byte; dlia).
    rewrite <- app_assoc. reflexivity.
  - destruct (b64_char_ok (b0 / 4) ltac:(dlia)) as [I0 [E0 _]].
    destruct (b64_char_ok ((b0 mod 4) * 16 + b1 / 16) ltac:(dlia)) as [I1 [E1 _]].
    destruct (b64_char_ok ((b1 mod 16) * 4 + b2 / 64) ltac:(dlia)) as [I2 [E2 _]].
    destruct (b64_char_ok (b2 mod 64) ltac:(dlia)) as [I3 [E3 _]].
    cbn [b64encode]. rewrite <- app_assoc. cbn [app a2b_loop]. rewrite E0, I0. cbn [Z.eqb].
    rewrite E1, I1. cbn [Z.eqb Pos.eqb]. rewrite E2, I2. cbn [Z.eqb Pos.eqb]. rewrite E3, I3.
    cbn [Z.eqb Pos.eqb].
    rewrite byte0_ok by (unfold byte; dlia).
    rewrite byte1_ok by (unfold byte; dlia).
    rewrite byte2_ok by (unfold byte; dlia).
    rewrite IH; [| done | destruct Hs as [->|Hs]; [left; done|right]].
    2: { intros E. apply Hs. change (length (b0 :: b1 :: b2 :: r)) with (1 * 3 + length r)%nat.
         rewrite Nat.add_comm, Nat.Div0.mod_add. exact E. }
    simpl. rewrite <- !app_assoc. reflexivity.
Qed.

Lemma forallb_below128 s : Forall below128 s -> forallb (fun c => c <? 128) s = true.
Proof.
  intros F. apply forallb_forall. intros c Hc. apply Z.ltb_lt.
  exact (proj1 (List.Forall_forall _ _) F c Hc).
Qed.

(** SecurityManager key loading.  A 32-byte private key exported with
    [base64.b64encode] into [RUTH_CLIENT_PRIVATE_KEY] is loaded back
    exactly, whatever ASCII text follows the encoding (a trailing newline,
    say); an unset or empty variable, or a value whose lenient base64
    decoding fails or does not give 32 bytes, leaves the freshly generated
    key. *)
Theorem load_private_key_b64 (k generated suffix : pybytes) :
  length k = 32%nat -> Forall byte k -> Forall below128 suffix ->
  load_private_key (Some (b64encode k ++ suffix)) generated = k /\
  load_private_key None generated = generated /\
  load_private_key (Some []) generated = generated /\
  (forall s, (forall b, b64decode s = Some b -> length b <> 32%nat) ->
     load_private_key (Some s) generated = generated).
Proof.
  intros Hl Hk Hs. split; [|split; [reflexivity|split; [reflexivity|]]].
  - unfold load_private_key.
    rewrite bool_decide_eq_false_2.
    2: { destruct k as [|b0 [|b1 [|b2 r]]]; simpl in Hl; try lia; discriminate. }
    unfold b64decode. rewrite forallb_app, b64encode_ascii, forallb_below128 by assumption.
    unfold a2b_base64. rewrite a2b_b64encode by (done || (right; rewrite Hl; discriminate)).
    simpl. rewrite Hl. reflexivity.
  - intros s Hd. unfold load_private_key.
    destruct (bool_decide (s = [])); [reflexivity|].
    destruct (b64decode s) as [b|] eqn:E; [|reflexivity].
    specialize (Hd b eq_refl). destruct (Nat.eqb_spec (length b) 32); [contradiction|reflexivity].
Qed.

(** Witness of [load_private_key_b64]: the key of 32 bytes 7, stored with
    a trailing newline. *)
Lemma load_private_key_b64_witness :
  load_private_key (Some (b64encode (repeat 7 32) ++ [10])) [] = repeat 7 32 /\
  load_private_key None [] = [] /\
  load_private_key (Some []) [] = [] /\
  (forall s, (forall b, b64decode s = Some b -> length b <> 32%nat) -> load_private_key (Some s) [] = []).
Proof.
  apply (load_private_key_b64 (repeat 7 32) [] [10]).
  - reflexivity.
  - apply List.Forall_forall. intros x Hx. apply repeat_spec in Hx. subst x. unfold byte. lia.
  - repeat constructor.
Defined.

End SecurityFacts.

Module VerifierFacts.
Import PyLib Gatekeeper.

Lemma signature_check_eq ed_verify u pk :
  signature_check ed_verify u pk =
    if (length pk =? 32)%nat && ed_verify pk (signature u) (payload_str (seed_id u) (scalar u) (round_id u))
    then Some (payload_str (seed_id u) (scalar u) (round_id u)) else None.
Proof.
  unfold signature_check.
  rewrite SignFacts.utf8_encode_below128 by apply SignFacts.payload_str_below128.
  destruct (length pk =? 32)%nat; simpl; [|reflexivity].
  destruct (ed_verify _ _ _); reflexivity.
Qed.

(** [Gatekeeper.verify_update] lets an exception escape exactly when the
    key has 32 bytes, the signature over the UTF-8 payload holds and the
    attestation token is not valid UTF-8; it returns [True] exactly when
    the key and signature hold, the token decodes, and the service answers
    200 with a JSON object whose [isValidSignature] and [basicIntegrity]
    are truthy and whose nonce matches the SHA-256 of the payload. *)
Theorem verify_update_outcomes (ed_verify : pybytes -> pybytes -> pybytes -> bool)
    (oracle : pystr -> outcome) (u : ClientUpdate) (pk : pybytes) :
  (verify_update ed_verify oracle u pk = Raised <->
     length pk = 32%nat /\
     ed_verify pk (signature u) (payload_str (seed_id u) (scalar u) (round_id u)) = true /\
     utf8_decode (attestation_token u) = None) /\
  (verify_update ed_verify oracle u pk = Accepted <->
     length pk = 32%nat /\
     ed_verify pk (signature u) (payload_str (seed_id u) (scalar u) (round_id u)) = true /\
     exists tok kvs,
       utf8_decode (attestation_token u) = Some tok /\
       oracle tok = OResponse 200 (Some (JObj kvs)) /\
       truthy (jget kvs (lit "isValidSignature") (JBool false)) = true /\
       nonce_matches (jget kvs (lit "nonce") JNull)
         (Sha256.digest (payload_str (seed_id u) (scalar u) (round_id u))) /\
       truthy (jget kvs (lit "basicIntegrity") (JBool false)) = true).
Proof.
  pose proof (signature_check_eq ed_verify u pk) as Hsc.
  set (p := payload_str (seed_id u) (scalar u) (round_id u)) in *.
  destruct (Nat.eqb_spec (length pk) 32) as [Hl|Hl];
    [|unfold verify_update; rewrite Hsc; simpl;
      split; split; try discriminate; intros [? _]; contradiction].
  destruct (ed_verify pk (signature u) p) eqn:He;
    [|unfold verify_update; rewrite Hsc; simpl;
      split; split; try discriminate; intros [_ [? _]]; discriminate].
  assert (signature_check ed_verify u pk = Some p) as Hsig by (rewrite Hsc; reflexivity).
  destruct (utf8_decode (attestation_token u)) as [tok|] eqn:Ht.
  2:{ unfold verify_update, verify_attestation. rewrite Hsig, Ht.
      split; split; try done.
      intros (_ & _ & tok & kvs & Htok & _). discriminate. }
  split.
  - split; [|intros (_ & _ & ?); discriminate].
    unfold verify_update, verify_attestation. rewrite Hsig, Ht.
    destruct (oracle tok) as [e|st body]; [discriminate|].
    destruct (negb (st =? 200)); [discriminate|].
    destruct body as [[| | | | | |kvs]|]; try discriminate.
    repeat (destruct (negb _); try discriminate).
  - split.
    + intros Hacc. split; [exact Hl|]. split; [reflexivity|]. exists tok.
      unfold verify_update, verify_attestation in Hacc. rewrite Hsig, Ht in Hacc.
      destruct (oracle tok) as [e|st body] eqn:Hor; [discriminate|].
      destruct (st =? 200) eqn:Hst; cbn [negb] in Hacc; [|discriminate].
      apply Z.eqb_eq in Hst. subst st.
      destruct body as [[| | | | | |kvs]|]; try discriminate.
      exists kvs. split; [reflexivity|]. split; [reflexivity|].
      destruct (truthy (jget kvs (lit "isValidSignature") (JBool false))) eqn:Hv;
        [|discriminate]. cbn [negb] in Hacc.
      destruct (nonce_ok (jget kvs (lit "nonce") JNull) (Sha256.hexdigest p)) eqn:Hn;
        [|discriminate]. cbn [negb] in Hacc.
      destruct (truthy (jget kvs (lit "basicIntegrity") (JBool false))) eqn:Hb;
        [|discriminate].
      split; [reflexivity|]. split; [|reflexivity].
      apply GatekeeperFacts.nonce_ok_iff. exact Hn.
    + intros (_ & _ & tok' & kvs & Htok & Hor & Hv & Hn & Hb).
      injection Htok as <-.
      rewrite (GatekeeperFacts.verify_update_answered ed_verify oracle u pk p tok kvs Hsig Ht Hor Hv Hb).
      apply GatekeeperFacts.nonce_ok_iff in Hn. unfold Sha256.hexdigest in *. rewrite Hn. reflexivity.
Qed.

End VerifierFacts.

Module PollFacts.
Import PyLib Gatekeeper Collector CollectorViews.


Lemma fold_check_round (k_threshold : Z) (l : list (Z * Z)) :
  forall st log,
  NoDup (map fst l) ->
  (forall rc, In rc l -> counts st !! rc.1 = Some rc.2) ->
  let res := fold_left (check_round k_threshold) (map fst l) (st, log) in
  res.2 = log ++ map (trigger_of st) (List.filter (fun rc => k_threshold <=? rc.2) l) /\
  (forall r, counts res.1 !! r = if fired k_threshold l r then None else counts st !! r) /\
  (forall r, updates res.1 !! r = if fired k_threshold l r then None else updates st !! r).
Proof.
  induction l as [|[r0 c0] l IH]; intros st log Hnd Hin.
  - simpl. rewrite app_nil_r. split; [reflexivity|]. split; reflexivity.
  - rewrite map_cons in Hnd |- *. cbn [fold_left fst] in Hnd |- *.
    apply NoDup_cons in Hnd as [Hr0 Hnd].
    assert (get_count st r0 = c0) as Hc.
    { unfold get_count. pose proof (Hin (r0, c0) (or_introl eq_refl)) as H0. simpl in H0. rewrite H0. reflexivity. }
    assert (check_round k_threshold (st, log) r0 =
      if k_threshold <=? c0
      then ({| updates := delete r0 (updates st); counts := delete r0 (counts st) |},
            log ++ [{| t_round := r0; t_count := c0; t_updates := lrange st r0 |}])
      else (st, log)) as Hstep.
    { unfold check_round. rewrite Hc. reflexivity. }
    rewrite Hstep.
    assert (forall r, In r (map fst l) -> r <> r0) as Hne.
    { intros r Hr ->. apply Hr0. by apply list_elem_of_In. }
    destruct (Z.leb_spec k_threshold c0) as [Hk|Hk].
    + assert ((k_threshold <=? c0) = true) as Ht by (by apply Z.leb_le).
      set (st1 := {| updates := delete r0 (updates st); counts := delete r0 (counts st) |}).
      destruct (IH st1 (log ++ [{| t_round := r0; t_count := c0; t_updates := lrange st r0 |}]) Hnd)
        as (Hlog & Hcnt & Hupd).
      { intros [r c] Hrc. simpl. rewrite lookup_delete_ne.
        - apply (Hin (r, c)). by right.
        - intros Heq. apply (Hne r); [|by symmetry]. apply in_map_iff. by exists (r, c). }
      split; [|split].
      * rewrite Hlog, <- app_assoc. f_equal. simpl. rewrite Ht. simpl. f_equal.
        apply map_ext_in. intros [r c] Hrc. apply filter_In in Hrc as [Hrc _].
        unfold trigger_of, lrange. simpl. rewrite lookup_delete_ne; [reflexivity|].
        intros Heq. apply (Hne r); [|by symmetry]. apply in_map_iff. by exists (r, c).
      * intros r. rewrite Hcnt. unfold fired. simpl. rewrite Ht, andb_true_r.
        destruct (Z.eqb_spec r0 r) as [->|Hr]; simpl.
        -- destruct (existsb _ l); [reflexivity|]. apply lookup_delete_eq.
        -- destruct (existsb _ l); [reflexivity|]. by apply lookup_delete_ne.
      * intros r. rewrite Hupd. unfold fired. simpl. rewrite Ht, andb_true_r.
        destruct (Z.eqb_spec r0 r) as [->|Hr]; simpl.
        -- destruct (existsb _ l); [reflexivity|]. apply lookup_delete_eq.
        -- destruct (existsb _ l); [reflexivity|]. by apply lookup_delete_ne.
    + destruct (IH st log Hnd) as (Hlog & Hcnt & Hupd).
      { intros rc Hrc. apply Hin. by right. }
      assert (Z.leb k_threshold c0 = false) as Hf by (apply Z.leb_gt; lia).
      split; [|split].
      * rewrite Hlog. simpl. rewrite Hf. reflexivity.
      * intros r. rewrite Hcnt. unfold fired. simpl. rewrite Hf, andb_false_r. reflexivity.
      * intros r. rewrite Hupd. unfold fired. simpl. rewrite Hf, andb_false_r. reflexivity.
Qed.

Lemma fired_map_to_list (k_threshold : Z) (m : gmap Z Z) (r : Z) :
  fired k_threshold (map_to_list m) r =
    match m !! r with Some c => k_threshold <=? c | None => false end.
Proof.
  unfold fired. destruct (m !! r) as [c|] eqn:Hm.
  - destruct (k_threshold <=? c) eqn:Hk.
    + apply existsb_exists. exists (r, c). split.
      * apply list_elem_of_In. by apply elem_of_map_to_list.
      * simpl. rewrite Z.eqb_refl, Hk. reflexivity.
    + apply not_true_iff_false. intros Hex. apply existsb_exists in Hex as [[r' c'] [Hin Hx]].
      apply andb_true_iff in Hx as [Hr Hx]. apply Z.eqb_eq in Hr. simpl in Hr, Hx. subst r'.
      apply list_elem_of_In, elem_of_map_to_list in Hin. congruence.
  - apply not_true_iff_false. intros Hex. apply existsb_exists in Hex as [[r' c'] [Hin Hx]].
    apply andb_true_iff in Hx as [Hr _]. apply Z.eqb_eq in Hr. simpl in Hr. subst r'.
    apply list_elem_of_In, elem_of_map_to_list in Hin. congruence.
Qed.

(** One pass of the [_worker_loop] scan calls [_trigger_aggregation] once
    for every round whose counter is at least [k_threshold], in scan order,
    with that count and the round's stored list; afterwards exactly those
    rounds have lost both keys, and every other key is as before. *)
Theorem poll_effect (k_threshold : Z) (st : Store) :
  (poll k_threshold st).2 =
    map (trigger_of st) (List.filter (fun rc => k_threshold <=? rc.2) (map_to_list (counts st))) /\
  (forall r, counts (poll k_threshold st).1 !! r =
     match counts st !! r with
     | Some c => if k_threshold <=? c then None else Some c
     | None => None
     end) /\
  (forall r, updates (poll k_threshold st).1 !! r =
     match counts st !! r with
     | Some c => if k_threshold <=? c then None else updates st !! r
     | None => updates st !! r
     end).
Proof.
  destruct (fold_check_round k_threshold (map_to_list (counts st)) st [])
    as (Hlog & Hcnt & Hupd).
  - apply NoDup_fst_map_to_list.
  - intros [r c] Hrc. apply elem_of_map_to_list. by apply list_elem_of_In.
  - unfold poll. split; [exact Hlog|]. split.
    + intros r. rewrite Hcnt, fired_map_to_list.
      destruct (counts st !! r) as [c|] eqn:Hm; [|reflexivity].
      destruct (k_threshold <=? c); reflexivity.
    + intros r. rewrite Hupd, fired_map_to_list.
      destruct (counts st !! r); [|reflexivity]. reflexivity.
Qed.

End PollFacts.

Module ClientTokenFacts.
Import PyLib Gatekeeper Security.

(** The token [SecurityManager.get_attestation_token] returns is valid
    UTF-8, so [Gatekeeper.verify_update] on an update that carries it never
    lets an exception escape. *)
Theorem client_token_never_raises (ed_verify : pybytes -> pybytes -> pybytes -> bool)
    (oracle : pystr -> outcome) (u : ClientUpdate) (pk : pybytes)
    (seed : Z) (x : float) (r : Z) :
  let u' := Collector.with_credentials u (signature u) (get_attestation_token seed x r) in
  utf8_decode (attestation_token u') = Some (lit "mock_integrity_token_from_device") /\
  verify_update ed_verify oracle u' pk <> Raised.
Proof.
  intros u'.
  assert (utf8_decode (attestation_token u') = Some (lit "mock_integrity_token_from_device")) as Ht
    by reflexivity.
  split; [exact Ht|].
  unfold verify_update. destruct (signature_check ed_verify u' pk); [|discriminate].
  unfold verify_attestation. rewrite Ht.
  destruct (oracle _) as [e|st body]; [discriminate|].
  destruct (negb (st =? 200)); [discriminate|].
  destruct body as [[| | | | | |kvs]|]; try discriminate.
  repeat (destruct (negb _); try discriminate).
Qed.

End ClientTokenFacts.

Module StoreFacts.
Import PyLib Gatekeeper Collector CollectorViews CollectorSteps.

Lemma submit_count_matches serialize ok u st :
  count_matches st -> count_matches (submit_update serialize ok u st).2.
Proof.
  intros Hinv r. unfold submit_update. destruct ok; [|apply Hinv].
  unfold get_count, lrange. simpl.
  destruct (Z.eq_dec r (round_id u)) as [->|Hr].
  - rewrite !lookup_insert_eq. simpl. pose proof (Hinv (round_id u)) as H. unfold get_count, lrange in H. lia.
  - rewrite !lookup_insert_ne by congruence. apply Hinv.
Qed.

Lemma submit_count_grows serialize ok u st r :
  get_count st r <= get_count (submit_update serialize ok u st).2 r.
Proof.
  unfold submit_update. destruct ok; [|simpl; lia].
  unfold get_count. simpl.
  destruct (Z.eq_dec r (round_id u)) as [->|Hr].
  - rewrite lookup_insert_eq. unfold get_count. lia.
  - rewrite lookup_insert_ne by congruence. lia.
Qed.

Lemma step_action_inv k_threshold serialize a s s' :
  step_inv k_threshold s -> step_action k_threshold serialize a s = Some s' -> step_inv k_threshold s'.
Proof.
  destruct s as [[st w] log]. intros (Hc & Hw & Hlog) Hs.
  destruct a as [ok u|r| | |]; simpl in Hs.
  - injection Hs as <-. split; [by apply submit_count_matches|]. split; [|exact Hlog].
    destruct w as [|r c|r c l]; [done| |done].
    pose proof (submit_count_grows serialize ok u st r). lia.
  - destruct w; [|discriminate|discriminate].
    destruct (Z.leb_spec k_threshold (get_count st r)); injection Hs as <-; simpl.
    + split; [done|]. split; [lia|done].
    + done.
  - destruct w as [|r c|r c l]; try discriminate. injection Hs as <-.
    split; [done|]. split; [|done]. rewrite <- (Hc r). exact Hw.
  - destruct w as [|r c|r c l]; try discriminate. injection Hs as <-.
    split; [|split; [done|]].
    + intros r'. unfold get_count, lrange. simpl.
      destruct (Z.eq_dec r r') as [->|Hr].
      * rewrite !lookup_delete_eq. reflexivity.
      * rewrite !lookup_delete_ne by done. apply Hc.
    + apply Forall_app. split; [exact Hlog|]. constructor; [exact Hw|constructor].
  - injection Hs as <-. done.
Qed.

(** Under any interleaving of submissions with the commands of a single
    worker ([GET] of a count, [LRANGE], the cleanup pipeline, or an
    exception ending the current key), from an empty store: every round's
    counter equals the length of its list, and every completed
    [_trigger_aggregation] call read a count of at least [K] and loaded at
    least that many updates (more when submissions came between its
    [GET] and its [LRANGE]). *)
Theorem interleaved_store_consistent (k_threshold : Z) (serialize : ClientUpdate -> pybytes)
    (acts : list action) (st : Store) (w : wstate) (log : list Trigger) :
  run_actions k_threshold serialize acts (empty_store, WIdle, []) = Some (st, w, log) ->
  count_matches st /\
  Forall (fun t => k_threshold <= t_count t <= Z.of_nat (length (t_updates t))) log.
Proof.
  assert (forall acts s s', step_inv k_threshold s ->
            run_actions k_threshold serialize acts s = Some s' -> step_inv k_threshold s') as Hrun.
  { induction acts0 as [|a acts' IH]; intros s s' Hs Hr; simpl in Hr.
    - by injection Hr as <-.
    - destruct (step_action k_threshold serialize a s) as [s1|] eqn:E; [|discriminate].
      apply (IH s1); [|exact Hr]. by apply (step_action_inv k_threshold serialize a s). }
  assert (step_inv k_threshold (empty_store, WIdle, [])) as H0.
  { split; [|split; [exact I|constructor]].
    intros r. unfold get_count, lrange. simpl. rewrite !lookup_empty. reflexivity. }
  intros Hr. destruct (Hrun acts _ _ H0 Hr) as (Hc & _ & Hlog).
  split; [exact Hc|exact Hlog].
Qed.

(** Witness of [interleaved_store_consistent]: [K = 2]; two submissions for
    round 7, the worker reads the count 2, a third submission comes in, the
    worker loads the list (three updates) and cleans up. *)
Lemma interleaved_store_consistent_witness :
  count_matches
    {| updates := ∅; counts := ∅ |} /\
  Forall (fun t => 2 <= t_count t <= Z.of_nat (length (t_updates t)))
    [{| t_round := 7; t_count := 2;
        t_updates := map wire_format [round7_update [3]; round7_update [2]; round7_update [1]] |}].
Proof.
  apply (interleaved_store_consistent 2 wire_format
    [ASubmit true (round7_update [1]); ASubmit true (round7_update [2]); AGet 7;
     ASubmit true (round7_update [3]); ALrange; ACleanup] _ WIdle).
  vm_compute. reflexivity.
Defined.

End StoreFacts.

Module StepFacts.
Import Prng Runtime.

Lemma next_seed_lookup (cur : Cursor) :
  seeds cur <> [] ->
  exists s, next_seed cur = (Ok s, {| seeds := seeds cur; current_epoch := (current_epoch cur + 1)%Z |}) /\
    seeds cur !! Z.to_nat (current_epoch cur mod Z.of_nat (length (seeds cur))) = Some s.
Proof.
  intros Hne. unfold next_seed.
  destruct (seeds cur) as [|s0 ss] eqn:Hs; [done|].
  destruct ((s0 :: ss) !! Z.to_nat (current_epoch cur mod Z.of_nat (length (s0 :: ss)))) as [s|] eqn:Hl.
  - exists s. split; reflexivity.
  - exfalso. apply lookup_ge_None in Hl.
    assert (0 < Z.of_nat (length (s0 :: ss))) as Hpos by (simpl; lia).
    pose proof (Z.mod_pos_bound (current_epoch cur) _ Hpos). lia.
Qed.

(** [ClientRuntime.step] with an empty seed list propagates the
    [ValueError] of [next_seed] and changes neither the cursor nor the
    runtime state.  Otherwise the cursor advances by one; when
    [2 * epsilon] is zero (the schedule gave [0.0] or [-0.0]) the division
    raises [ZeroDivisionError] and the runtime state is unchanged; else the
    step emits [seeds[epoch mod len(seeds)]], advances [step_count] by one,
    keeps [beta] and [max_norm], and reports the epsilon of the schedule at
    the old step count. *)
Theorem step_threads_cursor (m : Model) (sch : Schedule) (cur : Cursor) (st : RuntimeState) :
  (seeds cur = [] ->
     step m sch cur st = (Err (ValueError "No seeds provided"), cur, st)) /\
  (seeds cur <> [] -> PrimFloat.eqb (2 * get_epsilon sch st)%float 0%float = true ->
     step m sch cur st =
       (Err ZeroDivisionError, {| seeds := seeds cur; current_epoch := (current_epoch cur + 1)%Z |}, st)) /\
  (seeds cur <> [] -> PrimFloat.eqb (2 * get_epsilon sch st)%float 0%float = false ->
     exists res st',
       step m sch cur st = (Ok res, {| seeds := seeds cur; current_epoch := (current_epoch cur + 1)%Z |}, st') /\
       seeds cur !! Z.to_nat (current_epoch cur mod Z.of_nat (length (seeds cur))) = Some (seed_id res) /\
       epsilon res = get_epsilon sch st /\
       step_count st' = (step_count st + 1)%Z /\ beta st' = beta st /\ max_norm st' = max_norm st).
Proof.
  split; [intros Hs; unfold step, next_seed; rewrite Hs; reflexivity|].
  split.
  - intros Hne Hz. destruct (next_seed_lookup cur Hne) as (s & Hn & _).
    unfold step. rewrite Hn. cbv zeta. rewrite Hz. reflexivity.
  - intros Hne Hz. destruct (next_seed_lookup cur Hne) as (s & Hn & Hl).
    unfold step. rewrite Hn. cbv zeta. rewrite Hz.
    eexists _, _. split; [reflexivity|]. simpl. repeat split; [exact Hl|..]; reflexivity.
Qed.

End StepFacts.
